(** * PURRINT text mode: wrapping, rasterisation and thresholding

    A shallow embedding of the text-mode print path of
    [src/components/PurrintApp.tsx]: [normalizeTextForPrinting],
    [wrapMonospaceText], [renderTextToCanvas] and [onPrintClick], and of
    the image handlers of the component: [handleFile], [onPaste],
    [onImageInputChange], [onDrop] and the effect that shows the photo.

    Modelling conventions.
    - A JavaScript string is the list of its UTF-16 code units ([N]);
      [s.length], [s[i]] and [s.slice] all count code units.
    - The local variables of [wrapMonospaceText] form a record that the
      loop body transforms, one input character at a time.
    - [ImageData.data] (a [Uint8ClampedArray]) is a [list Z]; a store
      outside the array is ignored, which is what stdpp's list insert does.
    - JavaScript numbers used for layout are exact rationals ([Q]): the
      arithmetic of the source is binary64, and its rounding (of the order
      of 1e-14 on these pixel counts) is not modelled.  For the bitmap
      height the two are compared in [binary64_lines_height].  Canvas
      dimensions and string positions are integers ([Z]); canvas sizes
      beyond what a browser allocates are not modelled either.
    - The column limit of [wrapMonospaceText] is an integer, as its one
      caller passes it ([Math.max(1, Math.floor(...))]).
    - The browser (font metrics, the 2D rasteriser, the printer service) is
      a record of functions the code is parameterised by.
    - [async]/[await] are sequenced in program order; a rejected promise
      is an exception of the awaiting code. *)

From Stdlib Require Import String Ascii ZArith NArith QArith Qround Qminmax.
From Stdlib Require Import SpecFloat Lia Bool.
From stdpp Require Import base list.

Open Scope Z_scope.

(** ** JavaScript strings *)

Definition code_unit := N.
Definition jsstring := list code_unit.

(** A string literal of the source, as code units. *)
Definition js (s : string) : jsstring :=
  map N_of_ascii (list_ascii_of_string s).

Definition TAB : code_unit := 9%N.
Definition LF : code_unit := 10%N.
Definition CR : code_unit := 13%N.
Definition SPACE : code_unit := 32%N.
Definition HYPHEN : code_unit := 45%N.

(** [s.length] *)
Definition jslength (s : jsstring) : Z := Z.of_nat (length s).

(** Resolution of a relative index of [String.prototype.slice]: a negative
    index counts from the end, and everything is clamped to [0, len]. *)
Definition relative_index (len k : Z) : Z :=
  if k <? 0 then Z.max (len + k) 0 else Z.min k len.

(** [s.slice(start, stop)]; [stop = None] is the one-argument call. *)
Definition slice (s : jsstring) (start : Z) (stop : option Z) : jsstring :=
  let len := jslength s in
  let from := relative_index len start in
  let to := match stop with
            | None => len
            | Some e => relative_index len e
            end in
  take (Z.to_nat (to - from)) (drop (Z.to_nat from) s).

(** [value.replace(/\t/g, "    ")]: a left-to-right scan in which every
    match of the one-character pattern is replaced. *)
Fixpoint replace_tabs (value : jsstring) : jsstring :=
  match value with
  | [] => []
  | c :: rest =>
      if N.eqb c TAB then js "    " ++ replace_tabs rest
      else c :: replace_tabs rest
  end.

(** [value.replace(/\r\n/g, "\n")]: the scan resumes after each match. *)
Fixpoint replace_crlf (value : jsstring) : jsstring :=
  match value with
  | [] => []
  | c :: rest =>
      match rest with
      | d :: rest' =>
          if N.eqb c CR && N.eqb d LF then LF :: replace_crlf rest'
          else c :: replace_crlf rest
      | [] => [c]
      end
  end.

(** ECMAScript WhiteSpace and LineTerminator code points, the characters
    [String.prototype.trim] strips. *)
Definition is_whitespace (c : code_unit) : bool :=
  (N.leb 9 c && N.leb c 13)
  || N.eqb c 32 || N.eqb c 160 || N.eqb c 5760
  || (N.leb 8192 c && N.leb c 8202)
  || N.eqb c 8232 || N.eqb c 8233 || N.eqb c 8239
  || N.eqb c 8287 || N.eqb c 12288 || N.eqb c 65279.

Fixpoint trimStart (s : jsstring) : jsstring :=
  match s with
  | [] => []
  | c :: rest => if is_whitespace c then trimStart rest else s
  end.

Definition trimEnd (s : jsstring) : jsstring :=
  rev (trimStart (rev s)).

Definition trim (s : jsstring) : jsstring := trimEnd (trimStart s).

(** ** [normalizeTextForPrinting] *)

Definition normalizeTextForPrinting (value : jsstring) : jsstring :=
  replace_tabs value.

(** ** [wrapMonospaceText] *)

(** The mutable locals of [wrapMonospaceText]. *)
Record wrap_state := WrapState {
  lines : list jsstring;
  currentLine : jsstring;
  column : Z;
  lastBreakColumn : Z;
  lastBreakIndex : Z
}.

Definition wrap_init : wrap_state :=
  WrapState [] [] 0 (-1) (-1).

Definition pushCurrentLine (st : wrap_state) : wrap_state :=
  WrapState (lines st ++ [currentLine st]) [] 0 (-1) (-1).

(** [char === " " || char === "\t" || char === "-"] *)
Definition is_break (c : code_unit) : bool :=
  N.eqb c SPACE || N.eqb c TAB || N.eqb c HYPHEN.

(** The inner [for (let j = 0; j < currentLine.length; j++)] loop, started
    at index [j] on the characters from [j] on; [acc] holds
    [(lastBreakColumn, lastBreakIndex)]. *)
Fixpoint rescan_breaks (j : Z) (rest : jsstring) (acc : Z * Z) : Z * Z :=
  match rest with
  | [] => acc
  | c :: rest' =>
      rescan_breaks (j + 1) rest'
        (if is_break c then (j + 1, j + 1) else acc)
  end.

(** One iteration of the outer loop, on the character [char]. *)
Definition wrap_step (limit : Z) (st : wrap_state) (char : code_unit)
  : wrap_state :=
  if N.eqb char LF then pushCurrentLine st
  else
    let currentLine1 := currentLine st ++ [char] in
    let column1 := column st + 1 in
    let '(lastBreakColumn1, lastBreakIndex1) :=
      if is_break char then (column1, jslength currentLine1)
      else (lastBreakColumn st, lastBreakIndex st) in
    if column1 >=? limit then
      if (lastBreakColumn1 >? 0) && (lastBreakColumn1 <? column1) then
        let breakIndex := lastBreakIndex1 in
        let linePart := slice currentLine1 0 (Some breakIndex) in
        let currentLine2 := slice currentLine1 breakIndex None in
        let '(lastBreakColumn2, lastBreakIndex2) :=
          rescan_breaks 0 currentLine2 (-1, -1) in
        WrapState (lines st ++ [linePart]) currentLine2
                  (jslength currentLine2) lastBreakColumn2 lastBreakIndex2
      else
        WrapState (lines st ++ [currentLine1]) [] 0 (-1) (-1)
    else
      WrapState (lines st) currentLine1 column1
                lastBreakColumn1 lastBreakIndex1.

(** The outer loop visits [normalized[0]], [normalized[1]], ... in order. *)
Definition wrap_loop (limit : Z) (normalized : jsstring) (st : wrap_state)
  : wrap_state :=
  fold_left (wrap_step limit) normalized st.

Definition wrapMonospaceText (value : jsstring) (maxCharsPerLine : Z)
  : list jsstring :=
  let limit := Z.max 1 maxCharsPerLine in
  let normalized := replace_crlf value in
  let st := wrap_loop limit normalized wrap_init in
  lines st ++ [currentLine st].

(** ** JavaScript numbers used for layout *)

Definition number := Q.

(** [x < y] on numbers. *)
Definition Qltb (x y : number) : bool := negb (Qle_bool y x).

(** [a || b] on numbers: [a] unless it is falsy (zero). *)
Definition or_else (a b : number) : number :=
  if Qeq_bool a 0%Q then b else a.

(** Conversion of a number to an integer DOM attribute: truncation.  The
    attribute is an [unsigned long]; its reduction modulo [2 ^ 32] is left
    out, so [to_long] is the attribute's value for numbers from [0] up to
    [2 ^ 31 - 1] only.  The one call site passes [PREVIEW_WIDTH]. *)
Definition to_long (x : number) : Z :=
  if Qle_bool 0%Q x then Qfloor x else Qceiling x.

(** ** Canvas, image data and the browser *)

Inductive exception :=
| IndexSizeError
| PrinterError.

Inductive result (A : Type) :=
| Ok (a : A)
| Throw (e : exception).
Arguments Ok {A} a.
Arguments Throw {A} e.

(** [ImageData]: [data] holds [4 * width * height] bytes, RGBA per pixel. *)
Record ImageData := {
  image_width : Z;
  image_height : Z;
  image_data : list Z
}.

(** The state of an [HTMLCanvasElement] the code touches. *)
Record Canvas := {
  canvas_width : Z;
  canvas_height : Z;
  canvas_bitmap : list Z
}.

(** [`${fontSize}px ${fontFamily}`] *)
Record Font := {
  font_size : number;
  font_family : string
}.

(** What the code asks of the browser and of [services/printer.ts]:
    - [measureText_M f] is [context.measureText("M").width] under font [f];
    - [rasterize f calls w h] is the RGBA content of a [w] x [h] canvas
      filled with white on which [fillText(line, x, y)] was called in
      black for every [(line, x, y)] of [calls], top baseline, font [f];
    - [printImage img] is [None] when the promise resolves and the
      rejection otherwise. *)
Record Browser := {
  measureText_M : Font -> number;
  rasterize : Font -> list (jsstring * number * number) -> Z -> Z -> list Z;
  printImage : ImageData -> option exception
}.

(** [ctx.getImageData(0, 0, sw, sh)] on a canvas whose bitmap is [bitmap]:
    a zero width or height is an [IndexSizeError]. *)
Definition getImageData (bitmap : list Z) (sw sh : Z) : result ImageData :=
  if (sw =? 0) || (sh =? 0) then Throw IndexSizeError
  else Ok {| image_width := sw; image_height := sh; image_data := bitmap |}.

(** ** Constants *)

Definition PREVIEW_WIDTH : number := 384%Q.
Definition TEXT_PADDING : number := 16%Q.
Definition TEXT_FONT_SIZE : number := 16%Q.
Definition TEXT_LINE_HEIGHT : number := 1.4%Q.
Definition TEXT_PRIMARY_FONT : string := "IBM VGA 9x16".

(** The double-quote character of the template literal. *)
Definition dquote : string := String (ascii_of_nat 34) EmptyString.

Definition TEXT_FONT_FAMILY : string :=
  (dquote ++ TEXT_PRIMARY_FONT ++ dquote ++ ", "
   ++ dquote ++ "Courier New" ++ dquote ++ ", Courier, monospace")%string.
Definition MIN_TEXT_HEIGHT : Z := 120.
Definition TEXT_THRESHOLD : number := 200%Q.

(** ** The thresholding pass of [renderTextToCanvas] *)

(** [luminance < threshold ? 0 : 255] *)
Definition quantize (threshold : number) (luminance : Z) : Z :=
  if Qltb (inject_Z luminance) threshold then 0 else 255.

(** [const luminance = data[i]]: the sample the pass quantizes for the
    pixel whose bytes start at index [i]. *)
Definition luminance (data : list Z) (i : nat) : Z :=
  default 0 (data !! i).

(** [for (let i = 0; i < data.length; i += 4) { ... }], started at [i].
    Each iteration reads [data[i]] and stores into [data[i]],
    [data[i + 1]] and [data[i + 2]]; the typed array drops a store past
    its end.  [fuel] bounds the number of iterations. *)
Fixpoint threshold_loop (fuel : nat) (threshold : number) (i : nat)
    (data : list Z) : list Z :=
  match fuel with
  | O => data
  | S fuel' =>
      if (i <? length data)%nat then
        let value := quantize threshold (luminance data i) in
        let data1 := <[ i := value ]> data in
        let data2 := <[ (i + 1)%nat := value ]> data1 in
        let data3 := <[ (i + 2)%nat := value ]> data2 in
        threshold_loop fuel' threshold (i + 4) data3
      else data
  end.

(** The whole pass; [length data] iterations are more than it takes. *)
Definition threshold_pass (threshold : number) (data : list Z) : list Z :=
  threshold_loop (length data) threshold 0 data.

(** ** [renderTextToCanvas] *)

Record RenderOptions := {
  text : jsstring;
  canvas : Canvas;
  width : number;
  height : number;
  fontSize : number;
  lineHeight : number;
  fontFamily : string;
  padding : number;
  threshold : number
}.

(** The intermediate values of [renderTextToCanvas], up to the canvas
    resize. *)
Record Layout := {
  layout_maxCharsPerLine : Z;
  layout_lines : list jsstring;
  layout_lineHeightPx : number;
  layout_requiredHeight : number
}.

(** The numbers are exact rationals where the source computes in
    binary64, so [maxCharsPerLine] and [requiredHeight] are those of the
    source up to its rounding.  [charWidth] is not zero when [fontSize] is
    not (it is 16 at the call site); for a zero [charWidth] the source
    divides to [Infinity], which [Q] does not have. *)
Definition text_layout (B : Browser) (options : RenderOptions) : Layout :=
  let fontDeclaration :=
    {| font_size := fontSize options; font_family := fontFamily options |} in
  let maxWidth := Qmax 1 (width options - padding options * 2)%Q in
  let charWidth :=
    or_else (measureText_M B fontDeclaration) (fontSize options * 0.6)%Q in
  let maxCharsPerLine := Z.max 1 (Qfloor (maxWidth / charWidth)) in
  let lines := wrapMonospaceText (text options) maxCharsPerLine in
  let lineHeightPx := (fontSize options * lineHeight options)%Q in
  let requiredHeight :=
    Qmax (height options)
         (padding options * 2
          + inject_Z (Z.of_nat (length lines)) * lineHeightPx)%Q in
  {| layout_maxCharsPerLine := maxCharsPerLine;
     layout_lines := lines;
     layout_lineHeightPx := lineHeightPx;
     layout_requiredHeight := requiredHeight |}.

(** The result is the canvas after [putImageData] together with the
    returned [ImageData], or the exception of [getImageData].  The two
    [getContext] calls are taken to succeed, as the source asserts, and
    [ensureFontLoaded] swallows its own failures.  The canvas height is
    the ceiling as an unbounded integer: a canvas too tall for the browser
    to allocate, and the exceptions that follow from it, are left out. *)
Definition renderTextToCanvas (B : Browser) (options : RenderOptions)
  : result (Canvas * ImageData) :=
  let fontDeclaration :=
    {| font_size := fontSize options; font_family := fontFamily options |} in
  let L := text_layout B options in
  let canvas_w := to_long (width options) in
  let canvas_h := Qceiling (layout_requiredHeight L) in
  let calls :=
    imap (fun index line =>
            (line, padding options,
             (padding options
              + inject_Z (Z.of_nat index) * layout_lineHeightPx L)%Q))
         (layout_lines L) in
  let bitmap := rasterize B fontDeclaration calls canvas_w canvas_h in
  match getImageData bitmap canvas_w canvas_h with
  | Throw e => Throw e
  | Ok imageData =>
      let data := threshold_pass (threshold options) (image_data imageData) in
      let imageData' :=
        {| image_width := image_width imageData;
           image_height := image_height imageData;
           image_data := data |} in
      Ok ({| canvas_width := canvas_w;
             canvas_height := canvas_h;
             canvas_bitmap := data |},
          imageData')
  end.

(** ** The component state and [onPrintClick] *)

(** [type Mode = "image" | "text"] *)
Inductive Mode :=
| ImageMode
| TextMode.

(** The [<textarea>] behind the [textArea] ref. *)
Record TextArea := {
  scrollHeight : Z
}.

(** The state and refs [onPrintClick] reads; a ref whose [current] is null
    is [None]. *)
Record AppState := {
  mode : Mode;
  textInput : jsstring;
  photoImageData : option ImageData;
  previewCanvas : option Canvas;
  textArea : option TextArea
}.

(** [useMemo(() => normalizeTextForPrinting(textInput), [textInput])] *)
Definition printableText (st : AppState) : jsstring :=
  normalizeTextForPrinting (textInput st).

(** What a click does that is visible outside the component, in order. *)
Inductive event :=
| Alert (message : string)
| ConsoleError (message : string) (error : exception)
| RenderText (options : RenderOptions)
| PrintImage (imageData : ImageData).

(** The call [printImage(imageData)] inside [try { ... } catch]. *)
Definition try_printImage (B : Browser) (imageData : ImageData)
  : list event :=
  match printImage B imageData with
  | None => [PrintImage imageData]
  | Some error =>
      [PrintImage imageData;
       ConsoleError "Printing failed:" error;
       Alert "Printing failed. See console for details."]
  end.

Definition text_options (printable : jsstring) (canvas : Canvas)
    (contentHeight : Z) : RenderOptions :=
  {| text := printable;
     canvas := canvas;
     width := PREVIEW_WIDTH;
     height := inject_Z contentHeight;
     fontSize := TEXT_FONT_SIZE;
     lineHeight := TEXT_LINE_HEIGHT;
     fontFamily := TEXT_FONT_FAMILY;
     padding := TEXT_PADDING;
     threshold := TEXT_THRESHOLD |}.

Definition onPrintClick (B : Browser) (st : AppState) : list event :=
  match mode st with
  | TextMode =>
      match trim (printableText st) with
      | [] => [Alert "Please enter some text first."]
      | _ :: _ =>
          match previewCanvas st, textArea st with
          | Some canvas, Some textareaElement =>
              let contentHeight :=
                Z.max (scrollHeight textareaElement) MIN_TEXT_HEIGHT in
              let options :=
                text_options (printableText st) canvas contentHeight in
              match renderTextToCanvas B options with
              | Ok (_, imageData) =>
                  RenderText options :: try_printImage B imageData
              | Throw error =>
                  [RenderText options;
                   ConsoleError "Printing failed:" error;
                   Alert "Printing failed. See console for details."]
              end
          | _, _ => [Alert "Unable to render text. Please try again."]
          end
      end
  | ImageMode =>
      match photoImageData st with
      | None => [Alert "Please select an image first."]
      | Some imageData => try_printImage B imageData
      end
  end.

(** The image handed to [printImage] by a click, if any. *)
Definition printed_image (B : Browser) (st : AppState) : option ImageData :=
  match
    omap (fun e => match e with PrintImage img => Some img | _ => None end)
         (onPrintClick B st)
  with
  | img :: _ => Some img
  | [] => None
  end.

(** ** Vocabulary of the specification *)

(** No character of [s] is a space, a tab or a hyphen. *)
Definition no_break (s : jsstring) : Prop :=
  Forall (fun c => is_break c = false) s.

(** [k] is the column (counted from 1) of the last breakable character of
    [s], or [-1] when [s] has none. *)
Definition last_break_is (s : jsstring) (k : Z) : Prop :=
  (k = -1 /\ no_break s)
  \/ exists pre b post,
       s = pre ++ b :: post /\ is_break b = true /\ no_break post
       /\ k = jslength pre + 1.

(** What holds of the locals of [wrapMonospaceText] between two
    iterations of its outer loop. *)
Record wrap_inv (limit : Z) (st : wrap_state) : Prop := {
  inv_column : column st = jslength (currentLine st);
  inv_below : column st < limit;
  inv_index : lastBreakIndex st = lastBreakColumn st;
  inv_break : last_break_is (currentLine st) (lastBreakColumn st);
  inv_lines : Forall (fun l => jslength l <= limit) (lines st)
}.

(** [st] is the state of the outer loop after some input prefix. *)
Definition wrap_reachable (limit : Z) (st : wrap_state) : Prop :=
  exists processed, st = wrap_loop limit processed wrap_init.

(** The input of the outer loop with every line feed removed. *)
Definition without_newlines (normalized : jsstring) : jsstring :=
  List.filter (fun c => negb (N.eqb c LF)) normalized.

(** The breaking rule, read literally: when the line reaches the limit,
    it is cut after the last breakable character among those strictly
    before the limit if there is one, and at the limit otherwise. *)
Definition break_rule_as_stated : Prop :=
  forall limit st c,
    1 <= limit -> wrap_reachable limit st -> c <> LF ->
    let line := currentLine st ++ [c] in
    let st' := wrap_step limit st c in
    jslength line = limit ->
    (forall pre b post,
        line = pre ++ b :: post -> is_break b = true -> post <> [] ->
        no_break (removelast post) ->
        lines st' = lines st ++ [pre ++ [b]])
    /\ (no_break (removelast line) -> lines st' = lines st ++ [line]).

(** The thresholding pass written pixel by pixel: red, green and blue
    receive the quantized red sample and alpha is kept. *)
Fixpoint threshold_pixels (threshold : number) (data : list Z) : list Z :=
  match data with
  | r :: g :: b :: a :: rest =>
      let value := quantize threshold r in
      value :: value :: value :: a :: threshold_pixels threshold rest
  | _ => map (fun _ => quantize threshold (luminance data 0)) data
  end.

(** The unweighted average of the red, green and blue channels. *)
Definition average_luminance (r g b : Z) : Q :=
  (inject_Z (r + g + b) / 3)%Q.

(** The luminance sample, read literally: for every pixel it is the
    average of the pixel's red, green and blue bytes. *)
Definition luminance_is_average : Prop :=
  forall (data : list Z) (p : nat) (r g b : Z),
    data !! (4 * p)%nat = Some r ->
    data !! (4 * p + 1)%nat = Some g ->
    data !! (4 * p + 2)%nat = Some b ->
    (inject_Z (luminance data (4 * p)) == average_luminance r g b)%Q.

(** The height the specification gives for a text of [n] wrapped lines:
    the larger of the minimum and
    [padding * 2 + n * fontSize * lineHeight]. *)
Definition stated_height (n : nat) : Q :=
  Qmax (inject_Z MIN_TEXT_HEIGHT)
       (TEXT_PADDING * 2
        + inject_Z (Z.of_nat n) * TEXT_FONT_SIZE * TEXT_LINE_HEIGHT)%Q.

(** A browser with a nine-pixel wide [M] that paints nothing (every pixel
    stays opaque white) and a printer that accepts everything. *)
Definition blank_browser : Browser :=
  {| measureText_M := fun _ => 9%Q;
     rasterize := fun _ _ w h => replicate (Z.to_nat (4 * w * h)) 255;
     printImage := fun _ => None |}.

Definition blank_canvas : Canvas :=
  {| canvas_width := 300; canvas_height := 150; canvas_bitmap := [] |}.

(** The component in text mode with [value] typed in and a textarea
    whose [scrollHeight] is [h]. *)
Definition text_mode_state (value : jsstring) (h : Z) : AppState :=
  {| mode := TextMode;
     textInput := value;
     photoImageData := None;
     previewCanvas := Some blank_canvas;
     textArea := Some {| scrollHeight := h |} |}.

(** The options [onPrintClick] passes to [renderTextToCanvas] in state
    [st], when both refs are set. *)
Definition click_options (st : AppState) : option RenderOptions :=
  match previewCanvas st, textArea st with
  | Some canvas, Some textareaElement =>
      Some (text_options (printableText st) canvas
              (Z.max (scrollHeight textareaElement) MIN_TEXT_HEIGHT))
  | _, _ => None
  end.

(** The bitmap height, read literally: it is the larger of the minimum
    and the space the wrapped lines need, whatever the textarea; and
    ["Hello"] gives one line and the minimum height. *)
Definition height_as_stated : Prop :=
  forall (B : Browser) (st : AppState) (options : RenderOptions)
         (img : ImageData),
    mode st = TextMode ->
    click_options st = Some options ->
    printed_image B st = Some img ->
    (inject_Z (image_height img)
     == stated_height (length (layout_lines (text_layout B options))))%Q
    /\ (textInput st = js "Hello" ->
        5 < layout_maxCharsPerLine (text_layout B options) ->
        length (layout_lines (text_layout B options)) = 1%nat
        /\ image_height img = MIN_TEXT_HEIGHT).

(** The image a click hands to [printImage] for the text ["Hello"] in a
    short textarea under [blank_browser]: 384 by 120, all white. *)
Definition hello_image : ImageData :=
  {| image_width := 384;
     image_height := 120;
     image_data :=
       threshold_pass TEXT_THRESHOLD
         (replicate (Z.to_nat (4 * 384 * 120)) 255) |}.

(** ** The height arithmetic in binary64

    The numbers of the source are IEEE 754 doubles.  The operations the
    height needs are these, on the Standard Library's specification of
    binary floating point. *)

Definition b64_of_Z (z : Z) : spec_float := binary_normalize 53 1024 z 0 false.
Definition b64_add : spec_float -> spec_float -> spec_float := SFadd 53 1024.
Definition b64_mul : spec_float -> spec_float -> spec_float := SFmul 53 1024.
Definition b64_div : spec_float -> spec_float -> spec_float := SFdiv 53 1024.

(** [Math.ceil] of a finite double, as an integer. *)
Definition b64_ceil (x : spec_float) : option Z :=
  match x with
  | S754_zero _ => Some 0
  | S754_finite s m e =>
      if 0 <=? e then Some ((if s then -1 else 1) * Z.pos m * 2 ^ e)
      else if s then Some (- (Z.pos m / 2 ^ (- e)))
      else Some (- ((- Z.pos m) / 2 ^ (- e)))
  | _ => None
  end.

(** The literal [1.4]: the double nearest to 14 / 10. *)
Definition b64_TEXT_LINE_HEIGHT : spec_float :=
  b64_div (b64_of_Z 14) (b64_of_Z 10).

(** [Math.ceil(padding * 2 + lines.length * lineHeightPx)] in doubles,
    with [padding = 16], [fontSize = 16] and [n] lines. *)
Definition b64_lines_height (n : nat) : option Z :=
  let lineHeightPx := b64_mul (b64_of_Z 16) b64_TEXT_LINE_HEIGHT in
  b64_ceil (b64_add (b64_mul (b64_of_Z 16) (b64_of_Z 2))
                    (b64_mul (b64_of_Z (Z.of_nat n)) lineHeightPx)).

(** ** The image handlers of the component *)

(** A [File] as the handlers see it: they only pass it on. *)
Record File := {
  file_type : string;
  file_content : list Z
}.

(** [renderImage(file, canvas)] of [services/render.ts]: the canvas as the
    service leaves it, and the image the promise resolves to or the
    rejection. *)
Definition RenderImage := File -> Canvas -> Canvas * result ImageData.

Definition with_photo (st : AppState) (c : Canvas) (photo : option ImageData)
  : AppState :=
  {| mode := mode st;
     textInput := textInput st;
     photoImageData := photo;
     previewCanvas := Some c;
     textArea := textArea st |}.

(** [handleFile(file)]: the state after the promise of [renderImage] has
    settled, and what was reported. *)
Definition handleFile (renderImage : RenderImage) (st : AppState)
    (file : File) : AppState * list event :=
  match previewCanvas st with
  | None => (st, [])
  | Some c =>
      match renderImage file c with
      | (c', Ok imageData) => (with_photo st c' (Some imageData), [])
      | (c', Throw error) =>
          (with_photo st c' (photoImageData st),
           [ConsoleError "Rendering failed:" error;
            Alert "Rendering failed. See console for details."])
      end
  end.

(** [onImageInputChange] and [onDrop]: [if (files.length)
    handleFile(files[0])]. *)
Definition onFiles (renderImage : RenderImage) (st : AppState)
    (files : list File) : AppState * list event :=
  match files with
  | [] => (st, [])
  | file :: _ => handleFile renderImage st file
  end.

(** A [DataTransferItem]: its [type] and what [getAsFile()] returns. *)
Record ClipboardItem := {
  item_type : string;
  item_file : option File
}.

(** [item.type.startsWith("image/")] *)
Definition is_image_item (item : ClipboardItem) : bool :=
  String.prefix "image/" (item_type item).

(** [onPaste]: the loop over [event.clipboardData.items]. *)
Fixpoint onPaste (renderImage : RenderImage) (st : AppState)
    (items : list ClipboardItem) : AppState * list event :=
  match items with
  | [] => (st, [])
  | item :: rest =>
      if is_image_item item then
        match item_file item with
        | Some file => handleFile renderImage st file
        | None => onPaste renderImage st rest
        end
      else onPaste renderImage st rest
  end.

(** [setMode(m)] *)
Definition setMode (m : Mode) (st : AppState) : AppState :=
  {| mode := m;
     textInput := textInput st;
     photoImageData := photoImageData st;
     previewCanvas := previewCanvas st;
     textArea := textArea st |}.

(** The effect on [[mode, photoImageData]]: in image mode the canvas takes
    the size of the photo and [putImageData] copies it there. *)
Definition show_photo (st : AppState) : AppState :=
  match mode st, photoImageData st, previewCanvas st with
  | ImageMode, Some photo, Some _ =>
      {| mode := mode st;
         textInput := textInput st;
         photoImageData := photoImageData st;
         previewCanvas :=
           Some {| canvas_width := image_width photo;
                   canvas_height := image_height photo;
                   canvas_bitmap := image_data photo |};
         textArea := textArea st |}
  | _, _, _ => st
  end.

(** ** Further vocabulary *)

(** A flat image: every red, green and blue byte of [data] is [v],
    whatever the alpha bytes are.  An all-white image is [flat_image 255],
    an all-black one [flat_image 0]; both may be opaque. *)
Definition flat_image (v : Z) (data : list Z) : Prop :=
  forall k x, data !! k = Some x -> (k mod 4 <> 3)%nat -> x = v.

(** Pixel [p] carries ink: its sample is black. *)
Definition ink (data : list Z) (p : nat) : Prop :=
  data !! (4 * p)%nat = Some 0.

(** Lines joined by line feeds. *)
Fixpoint join_lines (ps : list jsstring) : jsstring :=
  match ps with
  | [] => []
  | [p] => p
  | p :: rest => p ++ LF :: join_lines rest
  end.

(** The last character of [line] is a space, a tab or a hyphen. *)
Definition ends_with_break (line : jsstring) : Prop :=
  exists pre b, line = pre ++ [b] /\ is_break b = true.

(** A line that was cut where the rule allows: after a breakable
    character, or at the limit when it has none. *)
Definition well_cut (limit : Z) (line : jsstring) : Prop :=
  ends_with_break line \/ (no_break line /\ jslength line = limit).

(** The number of line feeds of [s]. *)
Definition count_newlines (s : jsstring) : nat :=
  length (List.filter (fun c => N.eqb c LF) s).

(** The number of tabs of [s]. *)
Definition count_tabs (s : jsstring) : nat :=
  length (List.filter (fun c => N.eqb c TAB) s).

(** The [fillText(line, x, y)] calls of [lines.forEach]. *)
Definition fillText_calls (options : RenderOptions) (L : Layout)
  : list (jsstring * number * number) :=
  imap (fun index line =>
          (line, padding options,
           (padding options
            + inject_Z (Z.of_nat index) * layout_lineHeightPx L)%Q))
       (layout_lines L).

(** A value a [Uint8ClampedArray] can hold. *)
Definition is_byte (b : Z) : Prop := 0 <= b <= 255.

(** How many alerts and how many calls of [printImage] a trace has. *)
Definition count_alerts (trace : list event) : nat :=
  length (List.filter (fun e => match e with Alert _ => true | _ => false end)
                      trace).

Definition count_prints (trace : list event) : nat :=
  length (List.filter
            (fun e => match e with PrintImage _ => true | _ => false end)
            trace).

(** A one-pixel black image, two files, and a rendering service that
    accepts the files whose type starts with ["image/"]. *)
Definition pixel_image : ImageData :=
  {| image_width := 1; image_height := 1; image_data := [0; 0; 0; 255] |}.

Definition png_file : File :=
  {| file_type := "image/png"; file_content := [137; 80; 78; 71] |}.

Definition text_file : File :=
  {| file_type := "text/plain"; file_content := [104; 105] |}.

Definition sample_renderImage : RenderImage :=
  fun file c =>
    if String.prefix "image/" (file_type file) then (c, Ok pixel_image)
    else (c, Throw IndexSizeError).

(** * Properties *)

(** ** String helpers *)

Lemma jslength_app (s t : jsstring) :
  jslength (s ++ t) = jslength s + jslength t.
Proof. unfold jslength. rewrite length_app. lia. Qed.

Lemma jslength_nonneg (s : jsstring) : 0 <= jslength s.
Proof. unfold jslength. lia. Qed.

Lemma slice_prefix (s : jsstring) (k : Z) :
  0 <= k <= jslength s ->
  slice s 0 (Some k) = take (Z.to_nat k) s.
Proof.
  intros Hk. unfold slice, relative_index.
  pose proof (jslength_nonneg s).
  replace (0 <? 0) with false by reflexivity.
  destruct (k <? 0) eqn:E; [apply Z.ltb_lt in E; lia|].
  rewrite Z.min_l by lia. rewrite Z.min_l by lia.
  rewrite Z.sub_0_r. reflexivity.
Qed.

Lemma slice_suffix (s : jsstring) (k : Z) :
  0 <= k <= jslength s ->
  slice s k None = drop (Z.to_nat k) s.
Proof.
  intros Hk. unfold slice, relative_index.
  destruct (k <? 0) eqn:E; [apply Z.ltb_lt in E; lia|].
  rewrite Z.min_l by lia.
  apply take_ge. rewrite length_drop. unfold jslength in *. lia.
Qed.

(** Whatever the index, the two slices of the code split the string. *)
Lemma slice_split (s : jsstring) (k : Z) :
  slice s 0 (Some k) ++ slice s k None = s.
Proof.
  unfold slice, relative_index.
  pose proof (jslength_nonneg s) as Hs.
  replace (0 <? 0) with false by reflexivity.
  rewrite (Z.min_l 0) by lia. rewrite Z.sub_0_r. rewrite drop_0.
  set (p := if k <? 0 then Z.max (jslength s + k) 0 else Z.min k (jslength s)).
  assert (Hp : 0 <= p <= jslength s).
  { subst p. destruct (k <? 0) eqn:E; lia. }
  rewrite (take_ge (drop (Z.to_nat p) s)).
  - apply take_drop.
  - rewrite length_drop. unfold jslength in *. lia.
Qed.

(** ** The wrapping loop *)

Example wrap_hello :
  wrapMonospaceText (js "Hello") 39 = [js "Hello"].
Proof. reflexivity. Qed.

Example wrap_soft_break :
  wrapMonospaceText (js "hello world") 8 = [js "hello "; js "world"].
Proof. reflexivity. Qed.

Example wrap_crlf :
  wrapMonospaceText (js "ab" ++ [CR; LF] ++ js "cd") 8 = [js "ab"; js "cd"].
Proof. reflexivity. Qed.

Lemma no_break_app (s t : jsstring) :
  no_break (s ++ t) <-> no_break s /\ no_break t.
Proof. unfold no_break. apply Forall_app. Qed.

(** The rescan loop leaves its accumulator alone on a string without
    breakable characters. *)
Lemma rescan_breaks_none (s : jsstring) :
  forall j acc, no_break s -> rescan_breaks j s acc = acc.
Proof.
  induction s as [|c s IH]; intros j acc Hs; simpl; [reflexivity|].
  inversion Hs as [|? ? Hc Hs']; subst.
  rewrite Hc. apply IH, Hs'.
Qed.

Lemma last_break_is_snoc (s : jsstring) (k : Z) (c : code_unit) :
  last_break_is s k ->
  last_break_is (s ++ [c])
    (if is_break c then jslength (s ++ [c]) else k).
Proof.
  intros Hk. destruct (is_break c) eqn:Hc.
  - right. exists s, c, []. repeat split; try assumption.
    + constructor.
    + rewrite jslength_app. reflexivity.
  - destruct Hk as [[-> Hs] | (pre & b & post & -> & Hb & Hpost & ->)].
    + left. split; [reflexivity|].
      apply no_break_app. split; [assumption|]. repeat constructor. assumption.
    + right. exists pre, b, (post ++ [c]). repeat split; try assumption.
      * rewrite <- app_assoc. reflexivity.
      * apply no_break_app. split; [assumption|]. repeat constructor. assumption.
Qed.

(** A string has one last breakable character at most. *)
Lemma last_break_unique (pre pre' post post' : jsstring) (b b' : code_unit) :
  pre ++ b :: post = pre' ++ b' :: post' ->
  is_break b = true -> is_break b' = true ->
  no_break post -> no_break post' ->
  pre = pre' /\ b = b' /\ post = post'.
Proof.
  revert pre'. induction pre as [|x pre IH]; intros [|y pre'] E Hb Hb' Hp Hp';
    simpl in E.
  - inversion E; subst. auto.
  - inversion E; subst. exfalso.
    apply no_break_app in Hp as [_ Hp]. inversion Hp; congruence.
  - inversion E; subst. exfalso.
    apply no_break_app in Hp' as [_ Hp']. inversion Hp'; congruence.
  - inversion E as [[Hxy E']]; subst.
    destruct (IH _ E' Hb Hb' Hp Hp') as (-> & -> & ->). auto.
Qed.

Lemma no_break_not_last (pre post : jsstring) (b : code_unit) :
  is_break b = true -> ~ no_break (pre ++ b :: post).
Proof.
  intros Hb H. apply no_break_app in H as [_ H]. inversion H; congruence.
Qed.

(** The two slices of the soft break, when the last breakable character
    sits at column [jslength pre + 1]. *)
Lemma slice_at_break (pre post : jsstring) (b : code_unit) :
  slice (pre ++ b :: post) 0 (Some (jslength pre + 1)) = pre ++ [b]
  /\ slice (pre ++ b :: post) (jslength pre + 1) None = post.
Proof.
  assert (Hlen : 0 <= jslength pre + 1 <= jslength (pre ++ b :: post)).
  { rewrite jslength_app. unfold jslength. simpl. lia. }
  assert (Hn : Z.to_nat (jslength pre + 1) = length (pre ++ [b])).
  { rewrite length_app. unfold jslength. simpl. lia. }
  replace (pre ++ b :: post) with ((pre ++ [b]) ++ post) in *
    by (rewrite <- app_assoc; reflexivity).
  split.
  - rewrite slice_prefix by assumption. rewrite Hn. apply take_app_length.
  - rewrite slice_suffix by assumption. rewrite Hn. apply drop_app_length.
Qed.

Section WrapLoop.

(** The limit of one call, [Math.max(1, maxCharsPerLine)]. *)
Variable limit : Z.
Hypothesis limit_positive : 1 <= limit.

Lemma wrap_inv_init : wrap_inv limit wrap_init.
Proof.
  pose proof limit_positive as H. split; simpl; try reflexivity; try lia.
  - left. split; [reflexivity | constructor].
  - constructor.
Qed.

(** What one iteration does to a state that satisfies the invariant, case
    by case. *)
Lemma wrap_step_cases (st : wrap_state) (c : code_unit) :
  wrap_inv limit st -> c <> LF ->
  let line := currentLine st ++ [c] in
  let st' := wrap_step limit st c in
  jslength line <= limit
  /\ (jslength line < limit ->
      st' = WrapState (lines st) line (jslength line)
              (if is_break c then jslength line else lastBreakColumn st)
              (if is_break c then jslength line else lastBreakColumn st))
  /\ (jslength line = limit ->
      (forall pre b post,
          line = pre ++ b :: post -> is_break b = true -> no_break post ->
          post <> [] ->
          st' = WrapState (lines st ++ [pre ++ [b]]) post (jslength post)
                  (-1) (-1))
      /\ (no_break line \/ is_break c = true ->
          st' = WrapState (lines st ++ [line]) [] 0 (-1) (-1))).
Proof.
  intros [Hcol Hlt Hidx Hbrk Hlines] Hc line st'.
  assert (Hline : jslength line = column st + 1).
  { subst line. rewrite jslength_app, Hcol. reflexivity. }
  assert (Hnl : N.eqb c LF = false) by (apply N.eqb_neq; assumption).
  pose proof (last_break_is_snoc _ _ c Hbrk) as Hbrk1. fold line in Hbrk1.
  assert (Est' : st' =
    let lb := if is_break c then jslength line else lastBreakColumn st in
    if column st + 1 >=? limit then
      if (lb >? 0) && (lb <? column st + 1) then
        let line2 := slice line lb None in
        let '(c2, i2) := rescan_breaks 0 line2 (-1, -1) in
        WrapState (lines st ++ [slice line 0 (Some lb)]) line2
                  (jslength line2) c2 i2
      else WrapState (lines st ++ [line]) [] 0 (-1) (-1)
    else WrapState (lines st) line (column st + 1) lb lb).
  { subst st'. unfold wrap_step. rewrite Hnl. fold line.
    rewrite Hidx, Hline. destruct (is_break c); reflexivity. }
  cbv zeta in Est'.
  set (lb := if is_break c then jslength line else lastBreakColumn st) in *.
  split; [lia|]. split.
  - intros Hbelow. rewrite Est'.
    destruct (column st + 1 >=? limit) eqn:E; [apply Z.geb_le in E; lia|].
    rewrite Hline. reflexivity.
  - intros Hat. rewrite Est'.
    replace (column st + 1 >=? limit) with true
      by (symmetry; apply Z.geb_le; lia).
    split.
    + intros pre b post Eline Hb Hpost Hne.
      assert (Hlb : lb = jslength pre + 1).
      { destruct Hbrk1 as [[_ Hno] | (pre' & b' & post' & E' & Hb' & Hp' & Hk)].
        - rewrite Eline in Hno. exfalso. eapply no_break_not_last; eauto.
        - rewrite Eline in E'.
          destruct (last_break_unique _ _ _ _ _ _ E' Hb Hb' Hpost Hp')
            as (<- & _ & _). exact Hk. }
      assert (Hpostlen : 0 < jslength post).
      { destruct post; [congruence|]. unfold jslength. simpl. lia. }
      assert (Hlinelen : jslength line = jslength pre + 1 + jslength post).
      { rewrite Eline, jslength_app. unfold jslength. simpl. lia. }
      pose proof (jslength_nonneg pre).
      replace ((lb >? 0) && (lb <? column st + 1)) with true.
      2:{ symmetry. apply andb_true_iff. split.
          - apply Z.gtb_lt. lia.
          - apply Z.ltb_lt. lia. }
      rewrite Hlb, Eline.
      destruct (slice_at_break pre post b) as [-> ->].
      rewrite rescan_breaks_none by assumption. reflexivity.
    + intros Hhard.
      replace ((lb >? 0) && (lb <? column st + 1)) with false; [reflexivity|].
      symmetry. apply andb_false_iff.
      destruct Hhard as [Hno | Hcb].
      * left. rewrite Z.gtb_ltb. apply Z.ltb_ge.
        destruct Hbrk1 as [[-> _] | (pre & b & post & E' & Hb & _ & _)];
          [lia|].
        rewrite E' in Hno. exfalso. eapply no_break_not_last; eauto.
      * right. apply Z.ltb_ge. subst lb. rewrite Hcb. lia.
Qed.

(** Either a string has no breakable character or it has a last one. *)
Lemma break_shape (s : jsstring) :
  no_break s
  \/ exists pre b post,
       s = pre ++ b :: post /\ is_break b = true /\ no_break post.
Proof.
  induction s as [|c s [Hno | (pre & b & post & -> & Hb & Hpost)]].
  - left. constructor.
  - destruct (is_break c) eqn:Hc.
    + right. exists [], c, s. auto.
    + left. constructor; assumption.
  - right. exists (c :: pre), b, post. auto.
Qed.

(** The invariant of a state that has just pushed a line of at most
    [limit] characters and whose current line has no breakable
    character. *)
Ltac after_push :=
  split; simpl;
  [ reflexivity || lia
  | lia
  | reflexivity
  | left; split; [reflexivity | assumption || constructor]
  | apply Forall_app; split; [assumption | repeat constructor; lia] ].

Lemma wrap_step_inv (st : wrap_state) (c : code_unit) :
  wrap_inv limit st -> wrap_inv limit (wrap_step limit st c).
Proof.
  intros Hinv.
  destruct (N.eq_dec c LF) as [-> | Hc].
  - destruct Hinv as [Hcol Hlt Hidx Hbrk Hlines].
    pose proof (jslength_nonneg (currentLine st)).
    unfold wrap_step. simpl. after_push.
  - destruct (wrap_step_cases st c Hinv Hc) as (Hle & Hbelow & Hat).
    pose proof Hinv as [Hcol Hlt Hidx Hbrk Hlines].
    pose proof (jslength_nonneg (currentLine st)).
    cbv zeta in *.
    destruct (Z.eq_dec (jslength (currentLine st ++ [c])) limit) as [E | E].
    + destruct (Hat E) as [Hsoft Hhard].
      destruct (break_shape (currentLine st ++ [c]))
        as [Hno | (pre & b & post & Eline & Hb & Hpost)].
      * rewrite Hhard by (left; assumption). after_push.
      * destruct post as [|p post].
        -- apply app_inj_tail in Eline as [_ ->].
           rewrite Hhard by (right; assumption). after_push.
        -- rewrite (Hsoft pre b (p :: post)) by (auto; discriminate).
           assert (Hlen : jslength (currentLine st ++ [c])
                          = jslength (pre ++ [b]) + jslength (p :: post)).
           { rewrite Eline, !jslength_app. unfold jslength. simpl. lia. }
           assert (0 < jslength (pre ++ [b])).
           { rewrite jslength_app. pose proof (jslength_nonneg pre).
             unfold jslength in *. simpl. lia. }
           assert (0 < jslength (p :: post)).
           { unfold jslength. simpl. lia. }
           after_push.
    + rewrite Hbelow by lia.
      split; simpl; try reflexivity; try lia.
      * pose proof (last_break_is_snoc _ _ c Hbrk) as Hsnoc.
        destruct (is_break c); exact Hsnoc.
      * assumption.
Qed.

Lemma wrap_loop_inv (normalized : jsstring) :
  forall st, wrap_inv limit st -> wrap_inv limit (wrap_loop limit normalized st).
Proof.
  unfold wrap_loop.
  induction normalized as [|c rest IH]; intros st Hinv; simpl.
  - assumption.
  - apply IH, wrap_step_inv, Hinv.
Qed.

Lemma wrap_reachable_inv (st : wrap_state) :
  wrap_reachable limit st -> wrap_inv limit st.
Proof.
  intros [processed ->]. apply wrap_loop_inv, wrap_inv_init.
Qed.

(** One iteration appends its character, unless it is a line feed, to the
    text held in [lines] and [currentLine]. *)
Lemma wrap_step_text (st : wrap_state) (c : code_unit) :
  let st' := wrap_step limit st c in
  concat (lines st') ++ currentLine st'
  = concat (lines st) ++ currentLine st ++ without_newlines [c].
Proof.
  unfold wrap_step, without_newlines. simpl.
  destruct (N.eqb c LF); simpl.
  - rewrite concat_app. simpl. rewrite !app_nil_r. reflexivity.
  - set (line := currentLine st ++ [c]).
    destruct (is_break c);
      (destruct (_ >=? limit); [destruct (_ && _)|]); simpl;
      try destruct (rescan_breaks _ _ _); simpl;
      rewrite ?concat_app; simpl; rewrite ?app_nil_r, <- ?app_assoc;
      try rewrite slice_split; reflexivity.
Qed.

Lemma wrap_loop_text (normalized : jsstring) :
  forall st,
    let st' := wrap_loop limit normalized st in
    concat (lines st') ++ currentLine st'
    = concat (lines st) ++ currentLine st ++ without_newlines normalized.
Proof.
  unfold wrap_loop.
  induction normalized as [|c rest IH]; intros st; simpl.
  - rewrite app_nil_r. reflexivity.
  - cbv zeta in IH. rewrite IH. rewrite app_assoc.
    pose proof (wrap_step_text st c) as Hstep. cbv zeta in Hstep.
    rewrite Hstep. rewrite <- !app_assoc. f_equal. f_equal.
    unfold without_newlines. simpl. destruct (negb _); reflexivity.
Qed.

(** A line, once pushed, stays where it is. *)
Lemma wrap_step_lines (st : wrap_state) (c : code_unit) :
  lines st `prefix_of` lines (wrap_step limit st c).
Proof.
  unfold wrap_step.
  destruct (N.eqb c LF); [eexists; reflexivity|].
  destruct (is_break c);
    (destruct (_ >=? limit); [destruct (_ && _)|]);
    try destruct (rescan_breaks _ _ _); simpl;
    first [ eexists; reflexivity | exists []; rewrite app_nil_r; reflexivity ].
Qed.

Lemma wrap_loop_lines (chars : jsstring) :
  forall st, lines st `prefix_of` lines (wrap_loop limit chars st).
Proof.
  unfold wrap_loop.
  induction chars as [|c chars IH]; intros st; simpl.
  - reflexivity.
  - etransitivity; [apply wrap_step_lines | apply IH].
Qed.

(** A text without line feed that fits below the limit stays on the
    current line. *)
Lemma wrap_loop_short (chars : jsstring) :
  forall st,
    wrap_inv limit st ->
    Forall (fun c => c <> LF) chars ->
    jslength (currentLine st) + jslength chars < limit ->
    lines (wrap_loop limit chars st) = lines st
    /\ currentLine (wrap_loop limit chars st) = currentLine st ++ chars.
Proof.
  unfold wrap_loop.
  induction chars as [|c chars IH]; intros st Hinv Hnl Hlen; simpl.
  - rewrite app_nil_r. auto.
  - inversion Hnl as [|? ? Hc Hnl']; subst.
    destruct (wrap_step_cases st c Hinv Hc) as (_ & Hbelow & _).
    assert (Hshort : jslength (currentLine st ++ [c]) < limit).
    { rewrite jslength_app. pose proof (jslength_nonneg chars).
      unfold jslength in *. simpl in *. lia. }
    specialize (Hbelow Hshort).
    pose proof (wrap_step_inv st c Hinv) as Hinv'.
    destruct (IH (wrap_step limit st c) Hinv' Hnl') as [Hl Hc'].
    + rewrite Hbelow. simpl. rewrite jslength_app.
      unfold jslength in *. simpl in *. lia.
    + rewrite Hl, Hc', Hbelow. simpl. rewrite <- app_assoc. auto.
Qed.

End WrapLoop.

Example wrap_break_at_limit :
  wrapMonospaceText (js "ab c x") 5 = [js "ab c "; js "x"].
Proof. reflexivity. Qed.

(** C6, as amended: every line returned by [wrapMonospaceText] has at
    most [max(1, maxCharsPerLine)] characters.  While the current line is
    shorter than the limit it only grows.  When it reaches the limit and
    its last breakable character (space, tab or hyphen) lies strictly
    before the limit, the line is cut immediately after that character and
    the rest is carried over to the next line; when it has no breakable
    character, or the character at the limit is itself breakable, the
    whole line is emitted (a hard break at the limit).  The lines emitted
    while reading a prefix of the input are the first lines returned. *)
Theorem wrapMonospaceText_break_rule (value : jsstring) (maxCharsPerLine : Z) :
  let limit := Z.max 1 maxCharsPerLine in
  Forall (fun l => jslength l <= limit)
         (wrapMonospaceText value maxCharsPerLine)
  /\ (forall st c,
         wrap_reachable limit st -> c <> LF ->
         let line := currentLine st ++ [c] in
         let st' := wrap_step limit st c in
         jslength line <= limit
         /\ (jslength line < limit ->
             lines st' = lines st /\ currentLine st' = line)
         /\ (jslength line = limit ->
             (forall pre b post,
                 line = pre ++ b :: post -> is_break b = true ->
                 no_break post -> post <> [] ->
                 lines st' = lines st ++ [pre ++ [b]]
                 /\ currentLine st' = post)
             /\ (no_break line \/ is_break c = true ->
                 lines st' = lines st ++ [line] /\ currentLine st' = [])))
  /\ (forall processed rest,
         replace_crlf value = processed ++ rest ->
         lines (wrap_loop limit processed wrap_init)
           `prefix_of` wrapMonospaceText value maxCharsPerLine).
Proof.
  intros limit.
  assert (Hlimit : 1 <= limit) by (subst limit; lia).
  split; [|split]; cycle 2.
  { intros processed rest Hsplit.
    unfold wrapMonospaceText. fold limit. rewrite Hsplit.
    unfold wrap_loop. rewrite fold_left_app.
    etransitivity; [apply (wrap_loop_lines limit rest)|].
    eexists; reflexivity. }
  - unfold wrapMonospaceText. fold limit.
    destruct (wrap_loop_inv limit Hlimit (replace_crlf value) wrap_init
                (wrap_inv_init limit Hlimit))
      as [Hcol Hlt _ _ Hlines].
    apply Forall_app. split; [assumption|].
    repeat constructor. lia.
  - intros st c Hreach Hc line st'.
    pose proof (wrap_reachable_inv limit Hlimit st Hreach) as Hinv.
    destruct (wrap_step_cases limit st c Hinv Hc) as (Hle & Hbelow & Hat).
    fold line in Hle, Hbelow, Hat. fold st' in Hbelow, Hat.
    split; [assumption|]. split.
    + intros Hshort. rewrite (Hbelow Hshort). auto.
    + intros Hfull. destruct (Hat Hfull) as [Hsoft Hhard]. split.
      * intros pre b post E Hb Hpost Hne.
        rewrite (Hsoft pre b post E Hb Hpost Hne). auto.
      * intros Hcase. rewrite (Hhard Hcase). auto.
Qed.

Lemma wrapMonospaceText_break_rule_witness :
  Forall (fun l => jslength l <= 5) (wrapMonospaceText (js "ab cd") 5)
  /\ lines (wrap_step 5 (wrap_loop 5 (js "ab c") wrap_init) 100%N)
     = [js "ab "]
  /\ currentLine (wrap_step 5 (wrap_loop 5 (js "ab c") wrap_init) 100%N)
     = js "cd".
Proof.
  destruct (wrapMonospaceText_break_rule (js "ab cd") 5)
    as (Hlen & Hrule & _).
  split; [exact Hlen|].
  destruct (Hrule (wrap_loop 5 (js "ab c") wrap_init) 100%N
              (ex_intro _ (js "ab c") eq_refl)
              ltac:(discriminate))
    as (_ & _ & Hat).
  destruct (Hat eq_refl) as [Hsoft _].
  exact (Hsoft (js "ab") SPACE (js "cd") eq_refl eq_refl
           ltac:(repeat constructor) ltac:(discriminate)).
Defined.

(** C6, as stated, fails: with a limit of five, the line ["ab c "] has
    breakable characters at columns 3 and 5; the code emits the whole
    line, not ["ab "], the part up to the last breakable character
    strictly before the limit. *)
Lemma break_rule_as_stated_fails : ~ break_rule_as_stated.
Proof.
  intros H.
  specialize (H 5 (wrap_loop 5 (js "ab c") wrap_init) SPACE
                ltac:(lia) (ex_intro _ (js "ab c") eq_refl)
                ltac:(discriminate)).
  cbv zeta in H. destruct (H eq_refl) as [Hsoft _].
  specialize (Hsoft (js "ab") SPACE (js "c ") eq_refl eq_refl
                ltac:(discriminate) ltac:(repeat constructor)).
  vm_compute in Hsoft. discriminate Hsoft.
Qed.

(** C8: the lines returned by [wrapMonospaceText], concatenated, are the
    input with every CR LF pair replaced by LF and every LF removed, so
    every other character occurs once and in order; and there is at least
    one line. *)
Theorem wrapMonospaceText_keeps_text (value : jsstring) (maxCharsPerLine : Z) :
  concat (wrapMonospaceText value maxCharsPerLine)
  = without_newlines (replace_crlf value)
  /\ wrapMonospaceText value maxCharsPerLine <> [].
Proof.
  unfold wrapMonospaceText. cbv zeta. split.
  - rewrite concat_app. simpl. rewrite app_nil_r.
    pose proof (wrap_loop_text (Z.max 1 maxCharsPerLine)
                  (replace_crlf value) wrap_init) as H.
    cbv zeta in H. exact H.
  - intros E. apply app_eq_nil in E as [_ E]. discriminate E.
Qed.

(** ** The thresholding pass *)

Lemma quantize_text_threshold (r : Z) :
  quantize TEXT_THRESHOLD r = if r <? 200 then 0 else 255.
Proof.
  unfold quantize, Qltb, TEXT_THRESHOLD.
  destruct (Qle_bool 200 (inject_Z r)) eqn:E; simpl.
  - apply Qle_bool_iff in E. change 200%Q with (inject_Z 200) in E.
    rewrite <- Zle_Qle in E.
    destruct (r <? 200) eqn:E'; [apply Z.ltb_lt in E'; lia | reflexivity].
  - destruct (r <? 200) eqn:E'; [reflexivity|].
    apply Z.ltb_ge in E'. rewrite Zle_Qle in E'.
    apply Qle_bool_iff in E'. change (inject_Z 200) with 200%Q in E'.
    congruence.
Qed.

Lemma quantize_binary (threshold : number) (r : Z) :
  quantize threshold r = 0 \/ quantize threshold r = 255.
Proof. unfold quantize. destruct (Qltb _ _); auto. Qed.

Lemma threshold_loop_done (threshold : number) (fuel i : nat) (data : list Z) :
  (length data <= i)%nat -> threshold_loop fuel threshold i data = data.
Proof.
  intros H. destruct fuel; simpl; [reflexivity|].
  replace (i <? length data)%nat with false
    by (symmetry; apply Nat.ltb_ge; lia).
  reflexivity.
Qed.

(** With enough fuel, the loop started at the end of [pre] leaves [pre]
    alone and rewrites the rest pixel by pixel. *)
Lemma threshold_loop_pixels (threshold : number) (fuel : nat) :
  forall pre rest,
    (length rest <= 4 * fuel)%nat ->
    threshold_loop fuel threshold (length pre) (pre ++ rest)
    = pre ++ threshold_pixels threshold rest.
Proof.
  induction fuel as [|fuel IH]; intros pre rest Hfuel.
  - destruct rest; [reflexivity | simpl in Hfuel; lia].
  - cbn [threshold_loop].
    destruct rest as [|r rest].
    { rewrite app_nil_r.
      replace (length pre <? length pre)%nat with false
        by (symmetry; apply Nat.ltb_ge; lia).
      simpl. rewrite app_nil_r. reflexivity. }
    replace (length pre <? length (pre ++ r :: rest))%nat with true
      by (symmetry; apply Nat.ltb_lt; rewrite length_app; simpl; lia).
    assert (Hlum : luminance (pre ++ r :: rest) (length pre) = r).
    { unfold luminance. rewrite list_lookup_middle; reflexivity. }
    rewrite Hlum.
    set (v := quantize threshold r).
    rewrite !insert_app_r_alt by lia.
    replace (length pre - length pre)%nat with 0%nat by lia.
    replace (length pre + 1 - length pre)%nat with 1%nat by lia.
    replace (length pre + 2 - length pre)%nat with 2%nat by lia.
    destruct rest as [|g [|b [|a rest]]];
      try (simpl; rewrite threshold_loop_done
             by (rewrite length_app; simpl; lia);
           reflexivity).
    simpl. fold v.
    replace (pre ++ v :: v :: v :: a :: rest)
      with ((pre ++ [v; v; v; a]) ++ rest)
      by (rewrite <- app_assoc; reflexivity).
    replace (length pre + 4)%nat with (length (pre ++ [v; v; v; a]))
      by (rewrite length_app; reflexivity).
    rewrite IH by (simpl in Hfuel; lia).
    rewrite <- app_assoc. reflexivity.
Qed.

(** The loop of the source computes the pixel-by-pixel description. *)
Lemma threshold_pass_pixels (threshold : number) (data : list Z) :
  threshold_pass threshold data = threshold_pixels threshold data.
Proof.
  unfold threshold_pass.
  apply (threshold_loop_pixels threshold (length data) [] data). lia.
Qed.

(** More fuel than [length data] changes nothing: the loop stops on its
    own test. *)
Lemma threshold_loop_fuel (threshold : number) (fuel : nat) (data : list Z) :
  (length data <= 4 * fuel)%nat ->
  threshold_loop fuel threshold 0 data = threshold_pass threshold data.
Proof.
  intros H. rewrite threshold_pass_pixels.
  apply (threshold_loop_pixels threshold fuel [] data H).
Qed.

Lemma threshold_pass_length (threshold : number) (data : list Z) :
  length (threshold_pass threshold data) = length data.
Proof.
  rewrite threshold_pass_pixels.
  induction data as [data IH] using (induction_ltof1 _ (@length Z)).
  unfold ltof in IH.
  destruct data as [|r [|g [|b [|a rest]]]]; try reflexivity.
  cbn [threshold_pixels length]. rewrite IH by (simpl; lia). reflexivity.
Qed.

(** The bytes of pixel [p] after the pass. *)
Lemma threshold_pixels_lookup (threshold : number) (p : nat) :
  forall (data : list Z) (r : Z),
    data !! (4 * p)%nat = Some r ->
    let out := threshold_pixels threshold data in
    let value := quantize threshold r in
    out !! (4 * p)%nat = Some value
    /\ (is_Some (data !! (4 * p + 1)%nat) ->
        out !! (4 * p + 1)%nat = Some value)
    /\ (is_Some (data !! (4 * p + 2)%nat) ->
        out !! (4 * p + 2)%nat = Some value)
    /\ out !! (4 * p + 3)%nat = data !! (4 * p + 3)%nat.
Proof.
  induction p as [|p IH]; intros data r Hr out value.
  - subst out value.
    destruct data as [|r0 [|g [|b [|a rest]]]]; simpl in *;
      try discriminate; inversion Hr; subst; unfold luminance; simpl;
      repeat split; intros [? ?]; try discriminate; reflexivity.
  - replace (4 * S p)%nat with (S (S (S (S (4 * p))))) in * by lia.
    destruct data as [|r0 [|g [|b [|a rest]]]]; simpl in Hr; try discriminate.
    subst out. cbn [threshold_pixels]. simpl.
    apply IH. exact Hr.
Qed.

(** C3: in the thresholding pass with threshold 200, every pixel comes out
    pure black or pure white: red, green and blue all receive 0 when the
    luminance sample of the pixel is strictly below 200 and 255 otherwise,
    and alpha is left as it was. *)
Theorem threshold_pass_quantizes (data : list Z) (p : nat) (r g b a : Z) :
  data !! (4 * p)%nat = Some r ->
  data !! (4 * p + 1)%nat = Some g ->
  data !! (4 * p + 2)%nat = Some b ->
  data !! (4 * p + 3)%nat = Some a ->
  let out := threshold_pass TEXT_THRESHOLD data in
  let sample := luminance data (4 * p) in
  let value := if sample <? 200 then 0 else 255 in
  out !! (4 * p)%nat = Some value
  /\ out !! (4 * p + 1)%nat = Some value
  /\ out !! (4 * p + 2)%nat = Some value
  /\ out !! (4 * p + 3)%nat = Some a
  /\ (value = 0 <-> sample < 200)
  /\ (value = 255 <-> 200 <= sample).
Proof.
  intros Hr Hg Hb Ha out sample value.
  assert (Hsample : sample = r).
  { subst sample. unfold luminance. rewrite Hr. reflexivity. }
  destruct (threshold_pixels_lookup TEXT_THRESHOLD p data r Hr)
    as (H0 & H1 & H2 & H3).
  subst out. rewrite threshold_pass_pixels.
  rewrite quantize_text_threshold in H0, H1, H2.
  subst value. rewrite Hsample.
  repeat split.
  - exact H0.
  - apply H1. rewrite Hg. eexists; reflexivity.
  - apply H2. rewrite Hb. eexists; reflexivity.
  - rewrite H3. exact Ha.
  - destruct (r <? 200) eqn:E; [apply Z.ltb_lt in E; lia | discriminate].
  - destruct (r <? 200) eqn:E; [reflexivity | apply Z.ltb_ge in E; lia].
  - destruct (r <? 200) eqn:E; [discriminate | apply Z.ltb_ge in E; lia].
  - destruct (r <? 200) eqn:E; [apply Z.ltb_lt in E; lia | reflexivity].
Qed.

Lemma threshold_pass_quantizes_witness :
  threshold_pass TEXT_THRESHOLD [10; 250; 250; 255; 230; 0; 0; 128]
    !! 4%nat = Some 255
  /\ threshold_pass TEXT_THRESHOLD [10; 250; 250; 255; 230; 0; 0; 128]
       !! 7%nat = Some 128.
Proof.
  pose proof (threshold_pass_quantizes
                [10; 250; 250; 255; 230; 0; 0; 128] 1 230 0 0 128
                eq_refl eq_refl eq_refl eq_refl) as H.
  cbv zeta in H. destruct H as (H0 & _ & _ & H3 & _).
  split; [exact H0 | exact H3].
Defined.

(** C4, as stated, fails: for an opaque pure-red pixel the sample the
    code quantizes is 255, and the average of the three channels is 85. *)
Lemma luminance_is_average_fails : ~ luminance_is_average.
Proof.
  intros H.
  specialize (H [255; 0; 0; 255] 0%nat 255 0 0 eq_refl eq_refl eq_refl).
  vm_compute in H. discriminate H.
Qed.

Example red_pixel_comes_out_white :
  threshold_pass TEXT_THRESHOLD [255; 0; 0; 255] = [255; 255; 255; 255]
  /\ (average_luminance 255 0 0 == 85)%Q
  /\ quantize TEXT_THRESHOLD 85 = 0.
Proof. repeat split. Qed.

(** C4, as amended: the luminance sample of a pixel is its red byte; the
    green, blue and alpha bytes do not enter the quantization; for a grey
    pixel (red = green = blue) the sample is the unweighted average of the
    three channels. *)
Theorem luminance_is_red_channel
    (threshold : number) (data : list Z) (p : nat) (r g b a : Z) :
  data !! (4 * p)%nat = Some r ->
  data !! (4 * p + 1)%nat = Some g ->
  data !! (4 * p + 2)%nat = Some b ->
  data !! (4 * p + 3)%nat = Some a ->
  luminance data (4 * p) = r
  /\ threshold_pass threshold data !! (4 * p)%nat
     = Some (quantize threshold r)
  /\ (g = r -> b = r ->
      (inject_Z (luminance data (4 * p)) == average_luminance r g b)%Q).
Proof.
  intros Hr Hg Hb Ha.
  assert (Hsample : luminance data (4 * p) = r).
  { unfold luminance. rewrite Hr. reflexivity. }
  split; [exact Hsample|]. split.
  - rewrite threshold_pass_pixels.
    apply (threshold_pixels_lookup threshold p data r Hr).
  - intros -> ->. rewrite Hsample. unfold average_luminance.
    replace (r + r + r) with (r * 3) by lia.
    rewrite inject_Z_mult. field.
Qed.

Lemma luminance_is_red_channel_witness :
  luminance [90; 90; 90; 255] 0 = 90
  /\ threshold_pass TEXT_THRESHOLD [90; 90; 90; 255] !! 0%nat = Some 0
  /\ Qeq (inject_Z (luminance [90; 90; 90; 255] 0))
         (average_luminance 90 90 90).
Proof.
  destruct (luminance_is_red_channel TEXT_THRESHOLD [90; 90; 90; 255]
              0 90 90 90 255 eq_refl eq_refl eq_refl eq_refl)
    as (H1 & H2 & H3).
  split; [exact H1|]. split; [exact H2|]. exact (H3 eq_refl eq_refl).
Defined.

(** Every byte of the output: alpha bytes are kept, the others are the
    quantized first byte of their pixel. *)
Lemma threshold_pixels_lookup_any (threshold : number) (data : list Z) :
  forall k,
    threshold_pixels threshold data !! k
    = (fun x => if (k mod 4 =? 3)%nat then x
                else quantize threshold (luminance data (k - k mod 4)))
        <$> data !! k.
Proof.
  induction data as [data IH] using (induction_ltof1 _ (@length Z)).
  unfold ltof in IH. intros k.
  destruct data as [|r [|g [|b [|a rest]]]].
  - reflexivity.
  - destruct k as [|k]; reflexivity.
  - destruct k as [|[|k]]; reflexivity.
  - destruct k as [|[|[|k]]]; reflexivity.
  - destruct k as [|[|[|[|k]]]]; try reflexivity.
    cbn [threshold_pixels]. cbv zeta.
    change ((quantize threshold r :: quantize threshold r
             :: quantize threshold r :: a :: threshold_pixels threshold rest)
              !! S (S (S (S k))))
      with (threshold_pixels threshold rest !! k).
    change ((r :: g :: b :: a :: rest) !! S (S (S (S k)))) with (rest !! k).
    rewrite IH by (simpl; lia).
    replace (S (S (S (S k)))) with (k + 1 * 4)%nat by lia.
    rewrite Nat.Div0.mod_add.
    pose proof (Nat.Div0.mod_le k 4) as Hle.
    replace (k + 1 * 4 - k mod 4)%nat with (S (S (S (S (k - k mod 4)))))
      by lia.
    reflexivity.
Qed.

Lemma threshold_pass_lookup (threshold : number) (data : list Z) (k : nat) :
  threshold_pass threshold data !! k
  = (fun x => if (k mod 4 =? 3)%nat then x
              else quantize threshold (luminance data (k - k mod 4)))
      <$> data !! k.
Proof. rewrite threshold_pass_pixels. apply threshold_pixels_lookup_any. Qed.

Lemma pixel_start (k : nat) :
  ((k - k mod 4) mod 4 = 0 /\ k - k mod 4 <= k)%nat.
Proof.
  pose proof (Nat.div_mod_eq k 4) as Hk.
  pose proof (Nat.Div0.mod_le k 4) as Hle.
  replace (k - k mod 4)%nat with (k / 4 * 4)%nat by lia.
  rewrite Nat.Div0.mod_mul. lia.
Qed.

(** A flat image of a value that quantizes to itself is left as it is,
    whatever its alpha bytes. *)
Lemma threshold_pass_flat (threshold : number) (v : Z) (data : list Z) :
  quantize threshold v = v ->
  flat_image v data ->
  threshold_pass threshold data = data.
Proof.
  intros Hv Hflat. apply list_eq. intros k.
  rewrite threshold_pass_lookup.
  destruct (data !! k) as [x|] eqn:Hx; [|reflexivity].
  cbv [fmap option_fmap option_map]. f_equal.
  destruct (k mod 4 =? 3)%nat eqn:E; [reflexivity|].
  apply Nat.eqb_neq in E.
  destruct (pixel_start k) as [Hmod Hle].
  set (base := (k - k mod 4)%nat) in *.
  assert (Hbase : is_Some (data !! base)).
  { apply lookup_lt_is_Some. apply lookup_lt_Some in Hx. lia. }
  destruct Hbase as [r Hr].
  assert (Hr255 : r = v).
  { apply (Hflat base r Hr). rewrite Hmod. discriminate. }
  unfold luminance. rewrite Hr.
  change (quantize threshold r = x).
  rewrite Hr255, Hv. symmetry. exact (Hflat k x Hx E).
Qed.

(** A buffer whose every byte is [v], alpha included, is a flat image. *)
Lemma flat_image_Forall (v : Z) (data : list Z) :
  Forall (eq v) data -> flat_image v data.
Proof.
  intros Hall k x Hx _. rewrite Forall_lookup in Hall.
  symmetry. exact (Hall k x Hx).
Qed.

(** C5: an all-white image (red, green and blue 255 in every pixel,
    whatever the alpha bytes, opaque or not) comes out of the pass all
    white, with no pixel carrying ink; an all-black image (red, green and
    blue 0 in every pixel, whatever the alpha bytes) comes out all black,
    with ink in every pixel.  Either way no byte changes. *)
Theorem threshold_pass_flat_images (data : list Z) :
  let out := threshold_pass TEXT_THRESHOLD data in
  (flat_image 255 data ->
   flat_image 255 out
   /\ out = data
   /\ (forall p, ~ ink out p))
  /\ (flat_image 0 data ->
      flat_image 0 out
      /\ out = data
      /\ (forall p, (4 * p < length data)%nat -> ink out p)).
Proof.
  cbv zeta. split; intros Hflat.
  - rewrite (threshold_pass_flat TEXT_THRESHOLD 255 data eq_refl Hflat).
    split; [exact Hflat|]. split; [reflexivity|].
    intros p Hink. unfold ink in Hink.
    assert (H : 0 = 255); [|discriminate H].
    apply (Hflat (4 * p)%nat 0 Hink).
    rewrite Nat.mul_comm, Nat.Div0.mod_mul. discriminate.
  - rewrite (threshold_pass_flat TEXT_THRESHOLD 0 data eq_refl Hflat).
    split; [exact Hflat|]. split; [reflexivity|].
    intros p Hp. unfold ink.
    destruct (lookup_lt_is_Some_2 data (4 * p)%nat Hp) as [r Hr].
    rewrite Hr. f_equal.
    apply (Hflat (4 * p)%nat r Hr).
    rewrite Nat.mul_comm, Nat.Div0.mod_mul. discriminate.
Qed.

Lemma threshold_pass_flat_images_witness :
  (threshold_pass TEXT_THRESHOLD [255; 255; 255; 255; 255; 255; 255; 128]
   = [255; 255; 255; 255; 255; 255; 255; 128]
   /\ ~ ink (threshold_pass TEXT_THRESHOLD
               [255; 255; 255; 255; 255; 255; 255; 128]) 1)
  /\ (threshold_pass TEXT_THRESHOLD [0; 0; 0; 255; 0; 0; 0; 255]
      = [0; 0; 0; 255; 0; 0; 0; 255]
      /\ ink (threshold_pass TEXT_THRESHOLD [0; 0; 0; 255; 0; 0; 0; 255]) 1).
Proof.
  split.
  - destruct (proj1 (threshold_pass_flat_images
                       [255; 255; 255; 255; 255; 255; 255; 128]))
      as (_ & Hsame & Hink).
    + intros k x Hk Hmod.
      do 8 (destruct k as [|k];
            [ vm_compute in Hk; inversion Hk;
              first [reflexivity | exfalso; apply Hmod; reflexivity] |]).
      vm_compute in Hk. discriminate Hk.
    + split; [exact Hsame | exact (Hink 1%nat)].
  - destruct (proj2 (threshold_pass_flat_images
                       [0; 0; 0; 255; 0; 0; 0; 255]))
      as (_ & Hsame & Hink).
    + intros k x Hk Hmod.
      do 8 (destruct k as [|k];
            [ vm_compute in Hk; inversion Hk;
              first [reflexivity | exfalso; apply Hmod; reflexivity] |]).
      vm_compute in Hk. discriminate Hk.
    + split; [exact Hsame|]. apply (Hink 1%nat). simpl. lia.
Defined.

(** ** Layout arithmetic *)

Lemma Qceiling_max (x y : Q) :
  Qceiling (Qmax x y) = Z.max (Qceiling x) (Qceiling y).
Proof.
  destruct (Q.max_spec x y) as [[Hlt ->%Qceiling_comp] | [Hle ->%Qceiling_comp]].
  - apply Qlt_le_weak, Qceiling_resp_le in Hlt. lia.
  - apply Qceiling_resp_le in Hle. lia.
Qed.

(** The space [n] lines need, rounded up: [32 + ceil(22.4 n)]. *)
Lemma lines_height_ceiling (n : nat) :
  Qceiling (TEXT_PADDING * 2
            + inject_Z (Z.of_nat n) * (TEXT_FONT_SIZE * TEXT_LINE_HEIGHT))
  = 32 + (112 * Z.of_nat n + 4) / 5.
Proof.
  unfold Qceiling, Qfloor, TEXT_PADDING, TEXT_FONT_SIZE, TEXT_LINE_HEIGHT.
  set (k := Z.of_nat n). simpl.
  change (Z.pos (1 * (1 * 10))) with 10.
  change (Z.pos (1 * 1 * (1 * (1 * 10)))) with 10.
  change (Z.pos (1 * 1)) with 1.
  assert (Hk : 0 <= k) by (subst k; lia). clearbody k.
  Z.to_euclidean_division_equations. lia.
Qed.

(** For every line count up to 3000 (more than 67000 pixels) the doubles
    of the source give the same height as the exact arithmetic. *)
Example binary64_lines_height :
  forallb (fun n =>
             match b64_lines_height n with
             | Some h => h =? 32 + (112 * Z.of_nat n + 4) / 5
             | None => false
             end)
          (seq 0 3001) = true.
Proof. vm_compute. reflexivity. Qed.

Example binary64_line_height :
  b64_TEXT_LINE_HEIGHT = S754_finite false 6305039478318694 (-52)
  /\ b64_lines_height 1 = Some 55
  /\ b64_lines_height 5 = Some 144.
Proof. repeat split. Qed.

Lemma to_long_preview_width : to_long PREVIEW_WIDTH = 384.
Proof. reflexivity. Qed.

(** ** [renderTextToCanvas] under the options of [onPrintClick] *)

Lemma layout_lines_wrap (B : Browser) (options : RenderOptions) :
  layout_lines (text_layout B options)
  = wrapMonospaceText (text options)
      (layout_maxCharsPerLine (text_layout B options)).
Proof. reflexivity. Qed.

Lemma layout_requiredHeight_text (B : Browser) (printable : jsstring)
    (c : Canvas) (contentHeight : Z) :
  let options := text_options printable c contentHeight in
  Qceiling (layout_requiredHeight (text_layout B options))
  = Z.max contentHeight
      (32 + (112 * Z.of_nat (length (layout_lines (text_layout B options)))
             + 4) / 5).
Proof.
  intros options.
  change (layout_requiredHeight (text_layout B options))
    with (Qmax (inject_Z contentHeight)
            (TEXT_PADDING * 2
             + inject_Z (Z.of_nat
                           (length (layout_lines (text_layout B options))))
               * (TEXT_FONT_SIZE * TEXT_LINE_HEIGHT))).
  rewrite Qceiling_max, Qceiling_Z, lines_height_ceiling. reflexivity.
Qed.

(** With the options of [onPrintClick] the rendering succeeds, and the
    image has the preview width and the required height rounded up. *)
Lemma renderTextToCanvas_text (B : Browser) (printable : jsstring)
    (c : Canvas) (contentHeight : Z) :
  0 < contentHeight ->
  let options := text_options printable c contentHeight in
  exists c' img,
    renderTextToCanvas B options = Ok (c', img)
    /\ image_width img = 384
    /\ image_height img
       = Qceiling (layout_requiredHeight (text_layout B options)).
Proof.
  intros Hpos options.
  pose proof (layout_requiredHeight_text B printable c contentHeight) as Hh.
  cbv zeta in Hh. fold options in Hh.
  unfold renderTextToCanvas.
  change (to_long (width options)) with 384.
  set (h := Qceiling (layout_requiredHeight (text_layout B options))) in *.
  unfold getImageData.
  replace ((384 =? 0) || (h =? 0)) with false.
  - eexists _, _. split; [reflexivity|]. split; reflexivity.
  - symmetry. apply orb_false_iff. split; [reflexivity|].
    apply Z.eqb_neq. lia.
Qed.

(** ** [trim] and blank text *)

Lemma trimStart_blank (s : jsstring) :
  trimStart s = [] <-> Forall (fun c => is_whitespace c = true) s.
Proof.
  induction s as [|c s IH]; simpl.
  - split; [constructor | reflexivity].
  - destruct (is_whitespace c) eqn:Hc.
    + rewrite IH. split.
      * intros H. constructor; assumption.
      * intros H. inversion H; assumption.
    + split; [discriminate|].
      intros H. inversion H; congruence.
Qed.

Lemma trimStart_head (s : jsstring) (c : code_unit) (rest : jsstring) :
  trimStart s = c :: rest -> is_whitespace c = false.
Proof.
  induction s as [|d s IH]; simpl; [discriminate|].
  destruct (is_whitespace d) eqn:Hd; [exact IH|].
  intros E. inversion E; subst. exact Hd.
Qed.

(** [trim] returns the empty string exactly on the strings made of
    whitespace only, the empty string among them. *)
Lemma trim_blank (s : jsstring) :
  trim s = [] <-> Forall (fun c => is_whitespace c = true) s.
Proof.
  unfold trim, trimEnd. split.
  - intros H. apply trimStart_blank.
    assert (H' : trimStart (rev (trimStart s)) = []).
    { apply (f_equal (@rev _)) in H. rewrite rev_involutive in H. exact H. }
    apply trimStart_blank in H'.
    destruct (trimStart s) as [|c rest] eqn:E; [reflexivity|].
    apply trimStart_head in E.
    rewrite List.Forall_forall in H'. specialize (H' c).
    rewrite H' in E; [discriminate|].
    apply in_rev. rewrite rev_involutive. left. reflexivity.
  - intros H. apply trimStart_blank in H. rewrite H. reflexivity.
Qed.

(** ** [onPrintClick] in text mode *)

Lemma onPrintClick_blank (B : Browser) (st : AppState) :
  mode st = TextMode ->
  trim (printableText st) = [] ->
  onPrintClick B st = [Alert "Please enter some text first."].
Proof.
  intros Hmode Htrim. unfold onPrintClick. rewrite Hmode, Htrim. reflexivity.
Qed.

(** A click in text mode on a text that is not blank, with both refs set:
    the text is rendered and the image goes to [printImage]. *)
Lemma onPrintClick_text (B : Browser) (st : AppState)
    (options : RenderOptions) :
  mode st = TextMode ->
  trim (printableText st) <> [] ->
  click_options st = Some options ->
  exists c' img ta,
    textArea st = Some ta
    /\ options = text_options (printableText st)
                   (canvas options)
                   (Z.max (scrollHeight ta) MIN_TEXT_HEIGHT)
    /\ renderTextToCanvas B options = Ok (c', img)
    /\ onPrintClick B st = RenderText options :: try_printImage B img
    /\ printed_image B st = Some img
    /\ image_width img = 384
    /\ image_height img
       = Qceiling (layout_requiredHeight (text_layout B options)).
Proof.
  intros Hmode Htrim Hopt.
  unfold click_options in Hopt.
  destruct (previewCanvas st) as [c|] eqn:Hc; [|discriminate].
  destruct (textArea st) as [ta|] eqn:Hta; [|discriminate].
  inversion Hopt as [Hoptions]. clear Hopt.
  destruct (renderTextToCanvas_text B (printableText st) c
              (Z.max (scrollHeight ta) MIN_TEXT_HEIGHT))
    as (c' & img & Hrender & Hw & Hh).
  { unfold MIN_TEXT_HEIGHT. lia. }
  cbv zeta in Hrender, Hh.
  exists c', img, ta.
  assert (Hclick : onPrintClick B st
                   = RenderText
                       (text_options (printableText st) c
                          (Z.max (scrollHeight ta) MIN_TEXT_HEIGHT))
                       :: try_printImage B img).
  { unfold onPrintClick. rewrite Hmode, Hc, Hta.
    destruct (trim (printableText st)); [congruence|].
    rewrite Hrender. reflexivity. }
  repeat split; try assumption; try reflexivity.
  unfold printed_image. rewrite Hclick. unfold try_printImage.
  destruct (printImage B img); reflexivity.
Qed.

(** The events of a click in text mode carry at most one image, the one
    [renderTextToCanvas] returned. *)
Lemma onPrintClick_text_image (B : Browser) (st : AppState) (img : ImageData) :
  mode st = TextMode ->
  In (PrintImage img) (onPrintClick B st) ->
  exists options,
    click_options st = Some options
    /\ trim (printableText st) <> []
    /\ printed_image B st = Some img.
Proof.
  intros Hmode Hin.
  destruct (trim (printableText st)) as [|t ts] eqn:Htrim.
  { rewrite (onPrintClick_blank B st Hmode Htrim) in Hin.
    destruct Hin as [Hin | []]. discriminate Hin. }
  destruct (click_options st) as [options|] eqn:Hopt.
  - destruct (onPrintClick_text B st options Hmode) as
      (c' & img' & ta & _ & _ & _ & Hclick & Hprinted & _);
      [rewrite Htrim; discriminate | assumption |].
    exists options. split; [reflexivity|]. split; [discriminate|].
    rewrite Hclick in Hin. unfold try_printImage in Hin.
    destruct (printImage B img'); simpl in Hin;
      repeat (destruct Hin as [Hin | Hin]; try discriminate Hin;
              try (inversion Hin; subst; assumption));
      contradiction.
  - exfalso. unfold click_options in Hopt. unfold onPrintClick in Hin.
    rewrite Hmode, Htrim in Hin.
    destruct (previewCanvas st), (textArea st); try discriminate Hopt;
      destruct Hin as [Hin | []]; discriminate Hin.
Qed.

(** C1: the image [renderTextToCanvas] produces under the options of
    [onPrintClick] is 384 pixels wide, whatever the text; and any image a
    click in text mode hands to [printImage] is 384 pixels wide. *)
Theorem text_bitmap_width (B : Browser) :
  (forall (printable : jsstring) (c : Canvas) (scroll : Z),
      exists c' img,
        renderTextToCanvas B
          (text_options printable c (Z.max scroll MIN_TEXT_HEIGHT))
        = Ok (c', img)
        /\ image_width img = 384)
  /\ (forall (st : AppState) (img : ImageData),
         mode st = TextMode ->
         In (PrintImage img) (onPrintClick B st) ->
         image_width img = 384).
Proof.
  split.
  - intros printable c scroll.
    destruct (renderTextToCanvas_text B printable c
                (Z.max scroll MIN_TEXT_HEIGHT))
      as (c' & img & Hrender & Hw & _).
    { unfold MIN_TEXT_HEIGHT. lia. }
    exists c', img. split; assumption.
  - intros st img Hmode Hin.
    destruct (onPrintClick_text_image B st img Hmode Hin)
      as (options & Hopt & Htrim & Hprinted).
    destruct (onPrintClick_text B st options Hmode Htrim Hopt)
      as (c' & img' & ta & _ & _ & _ & _ & Hprinted' & Hw & _).
    rewrite Hprinted in Hprinted'. inversion Hprinted'. subst. exact Hw.
Qed.

Example hello_click :
  onPrintClick blank_browser (text_mode_state (js "Hello") 0)
  = [RenderText (text_options (js "Hello") blank_canvas 120);
     PrintImage hello_image].
Proof. reflexivity. Qed.

Lemma text_bitmap_width_witness :
  In (PrintImage hello_image)
     (onPrintClick blank_browser (text_mode_state (js "Hello") 0))
  /\ image_width hello_image = 384.
Proof.
  assert (Hin : In (PrintImage hello_image)
                   (onPrintClick blank_browser
                      (text_mode_state (js "Hello") 0))).
  { change (In (PrintImage hello_image)
              [RenderText (text_options (js "Hello") blank_canvas 120);
               PrintImage hello_image]).
    right. left. reflexivity. }
  split; [exact Hin|].
  exact (proj2 (text_bitmap_width blank_browser)
           (text_mode_state (js "Hello") 0) hello_image eq_refl Hin).
Defined.

(** ** The height of the text bitmap *)

Lemma wrap_hello_one_line (maxCharsPerLine : Z) :
  5 < maxCharsPerLine ->
  wrapMonospaceText (js "Hello") maxCharsPerLine = [js "Hello"].
Proof.
  intros H. unfold wrapMonospaceText. cbv zeta.
  change (replace_crlf (js "Hello")) with (js "Hello").
  assert (Hlimit : 1 <= Z.max 1 maxCharsPerLine) by lia.
  destruct (wrap_loop_short (Z.max 1 maxCharsPerLine) Hlimit
              (js "Hello") wrap_init)
    as [Hl Hc].
  - apply wrap_inv_init, Hlimit.
  - repeat constructor; discriminate.
  - change (jslength (currentLine wrap_init) + jslength (js "Hello"))
      with 5. lia.
  - rewrite Hl, Hc. reflexivity.
Qed.

(** C2, as amended: the height of the bitmap a click in text mode prints
    is the ceiling of the largest of three numbers: the textarea's
    [scrollHeight], the minimum 120, and
    [padding * 2 + lines.length * fontSize * lineHeight], that is
    [32 + 22.4 * lines.length].  The text ["Hello"], when more than five
    characters fit on a line, wraps to one line, and the height is then
    the larger of the textarea's [scrollHeight] and the minimum 120. *)
Theorem text_bitmap_height (B : Browser) (st : AppState)
    (options : RenderOptions) :
  mode st = TextMode ->
  trim (printableText st) <> [] ->
  click_options st = Some options ->
  let n := length (layout_lines (text_layout B options)) in
  exists img ta,
    textArea st = Some ta
    /\ printed_image B st = Some img
    /\ image_height img
       = Qceiling
           (Qmax (inject_Z (Z.max (scrollHeight ta) MIN_TEXT_HEIGHT))
                 (TEXT_PADDING * 2
                  + inject_Z (Z.of_nat n)
                    * (TEXT_FONT_SIZE * TEXT_LINE_HEIGHT)))
    /\ image_height img
       = Z.max (Z.max (scrollHeight ta) MIN_TEXT_HEIGHT)
               (32 + (112 * Z.of_nat n + 4) / 5)
    /\ (textInput st = js "Hello" ->
        5 < layout_maxCharsPerLine (text_layout B options) ->
        n = 1%nat
        /\ image_height img = Z.max (scrollHeight ta) MIN_TEXT_HEIGHT).
Proof.
  intros Hmode Htrim Hopt n.
  destruct (onPrintClick_text B st options Hmode Htrim Hopt)
    as (c' & img & ta & Hta & Hoptions & _ & _ & Hprinted & _ & Hh).
  exists img, ta.
  assert (Hclosed : image_height img
                    = Z.max (Z.max (scrollHeight ta) MIN_TEXT_HEIGHT)
                        (32 + (112 * Z.of_nat n + 4) / 5)).
  { rewrite Hh. subst n. rewrite Hoptions at 1.
    rewrite layout_requiredHeight_text. rewrite <- Hoptions. reflexivity. }
  split; [exact Hta|]. split; [exact Hprinted|]. split; [|split].
  - rewrite Hh. subst n. rewrite Hoptions. reflexivity.
  - exact Hclosed.
  - intros Hhello Hfit.
    assert (Hn : n = 1%nat).
    { subst n. rewrite layout_lines_wrap.
      replace (text options) with (js "Hello").
      - rewrite wrap_hello_one_line by assumption. reflexivity.
      - rewrite Hoptions. unfold printableText. rewrite Hhello.
        reflexivity. }
    split; [exact Hn|].
    rewrite Hclosed, Hn. change (32 + (112 * Z.of_nat 1 + 4) / 5) with 55.
    unfold MIN_TEXT_HEIGHT. lia.
Qed.

Lemma text_bitmap_height_witness :
  (mode (text_mode_state (js "Hello") 0) = TextMode
   /\ trim (printableText (text_mode_state (js "Hello") 0)) <> []
   /\ click_options (text_mode_state (js "Hello") 0)
      = Some (text_options (js "Hello") blank_canvas 120))
  /\ exists img,
       printed_image blank_browser (text_mode_state (js "Hello") 0)
       = Some img
       /\ image_height img = 120.
Proof.
  assert (Htrim : trim (printableText (text_mode_state (js "Hello") 0)) <> [])
    by (vm_compute; discriminate).
  split; [split; [reflexivity | split; [exact Htrim | reflexivity]]|].
  destruct (text_bitmap_height blank_browser
              (text_mode_state (js "Hello") 0)
              (text_options (js "Hello") blank_canvas 120)
              eq_refl Htrim eq_refl)
    as (img & ta & Hta & Hprinted & _ & _ & Hhello).
  exists img. split; [exact Hprinted|].
  destruct (Hhello eq_refl ltac:(vm_compute; reflexivity)) as [_ Hh].
  inversion Hta; subst ta. exact Hh.
Defined.

(** C2, as stated, fails: with a textarea 200 pixels high, ["Hello"] is
    printed on a bitmap 200 pixels high, not on one of the minimum
    height 120. *)
Lemma height_as_stated_fails : ~ height_as_stated.
Proof.
  intros H.
  pose (st := text_mode_state (js "Hello") 200).
  pose (options := text_options (js "Hello") blank_canvas 200).
  assert (Htrim : trim (printableText st) <> [])
    by (vm_compute; discriminate).
  destruct (onPrintClick_text blank_browser st options eq_refl Htrim eq_refl)
    as (c' & img & ta & _ & _ & _ & _ & Hprinted & _ & Hh).
  destruct (H blank_browser st options img eq_refl eq_refl Hprinted)
    as [Hheight _].
  rewrite Hh in Hheight. vm_compute in Hheight. discriminate Hheight.
Qed.

(** Rounding alone already separates the two: four lines need 121.6
    pixels and are printed on 122. *)
Example four_lines_height :
  exists img,
    printed_image blank_browser
      (text_mode_state [97; 10; 98; 10; 99; 10; 100]%N 0) = Some img
    /\ image_height img = 122
    /\ (stated_height 4 == 121.6)%Q.
Proof.
  pose (st := text_mode_state [97; 10; 98; 10; 99; 10; 100]%N 0).
  assert (Htrim : trim (printableText st) <> [])
    by (vm_compute; discriminate).
  destruct (onPrintClick_text blank_browser st
              (text_options (printableText st) blank_canvas 120)
              eq_refl Htrim eq_refl)
    as (c' & img & ta & _ & _ & _ & _ & Hprinted & _ & Hh).
  exists img. split; [exact Hprinted|]. split.
  - rewrite Hh. vm_compute. reflexivity.
  - vm_compute. reflexivity.
Qed.

(** ** Blank text *)

(** C9: in text mode, when the normalized text is empty or made of
    whitespace only, a click does nothing but show the alert: nothing is
    rendered and [printImage] is not called. *)
Theorem blank_text_is_rejected (B : Browser) (st : AppState) :
  mode st = TextMode ->
  Forall (fun c => is_whitespace c = true) (printableText st) ->
  onPrintClick B st = [Alert "Please enter some text first."]
  /\ printed_image B st = None
  /\ (forall img, ~ In (PrintImage img) (onPrintClick B st))
  /\ (forall options, ~ In (RenderText options) (onPrintClick B st)).
Proof.
  intros Hmode Hblank.
  apply trim_blank in Hblank.
  pose proof (onPrintClick_blank B st Hmode Hblank) as Hclick.
  split; [exact Hclick|]. split; [|split].
  - unfold printed_image. rewrite Hclick. reflexivity.
  - intros img Hin. rewrite Hclick in Hin.
    destruct Hin as [Hin | []]. discriminate Hin.
  - intros options Hin. rewrite Hclick in Hin.
    destruct Hin as [Hin | []]. discriminate Hin.
Qed.

Lemma blank_text_is_rejected_witness :
  Forall (fun c => is_whitespace c = true)
         (printableText (text_mode_state [32; 9; 10; 32]%N 0))
  /\ onPrintClick blank_browser (text_mode_state [32; 9; 10; 32]%N 0)
     = [Alert "Please enter some text first."].
Proof.
  assert (Hblank : Forall (fun c => is_whitespace c = true)
                     (printableText (text_mode_state [32; 9; 10; 32]%N 0))).
  { vm_compute. repeat constructor. }
  split; [exact Hblank|].
  exact (proj1 (blank_text_is_rejected blank_browser
                  (text_mode_state [32; 9; 10; 32]%N 0) eq_refl Hblank)).
Defined.

(** ** Tabs *)

Lemma replace_tabs_expand (value : jsstring) :
  replace_tabs value
  = concat (map (fun c => if N.eqb c TAB
                          then [SPACE; SPACE; SPACE; SPACE]
                          else [c]) value).
Proof.
  induction value as [|c rest IH]; simpl; [reflexivity|].
  rewrite IH. destruct (N.eqb c TAB); reflexivity.
Qed.

Lemma replace_tabs_no_tab (value : jsstring) : ~ In TAB (replace_tabs value).
Proof.
  induction value as [|c rest IH]; simpl; [auto|].
  destruct (N.eqb c TAB) eqn:E.
  - simpl. intros [H | [H | [H | [H | H]]]]; try discriminate H. auto.
  - intros [H | H]; [|auto]. subst c. discriminate E.
Qed.

(** [replace_crlf] only removes characters. *)
Lemma replace_crlf_In (x : code_unit) (value : jsstring) :
  In x (replace_crlf value) -> In x value.
Proof.
  induction value as [value IH] using (induction_ltof1 _ (@length code_unit)).
  unfold ltof in IH.
  destruct value as [|c [|d rest]]; simpl; try tauto.
  destruct (N.eqb c CR && N.eqb d LF) eqn:E.
  - apply andb_true_iff in E as [_ Ed]. apply N.eqb_eq in Ed. subst d.
    intros [H | H]; [auto|].
    right. right. apply IH; [simpl; lia | exact H].
  - intros [H | H]; [auto|].
    right. apply (IH (d :: rest)); [simpl; lia | exact H].
Qed.

Lemma onPrintClick_rendered_text (B : Browser) (st : AppState)
    (options : RenderOptions) :
  In (RenderText options) (onPrintClick B st) ->
  text options = printableText st.
Proof.
  unfold onPrintClick, try_printImage.
  destruct (mode st).
  - destruct (photoImageData st) as [img|]; [destruct (printImage B img)|];
      simpl; intros H;
      repeat (destruct H as [H | H]; try discriminate H); contradiction.
  - destruct (trim (printableText st)) as [|t ts].
    { simpl. intros [H | []]. discriminate H. }
    destruct (previewCanvas st) as [c|], (textArea st) as [ta|];
      try (simpl; intros [H | []]; discriminate H).
    destruct (renderTextToCanvas B _) as [[c' img] | e].
    + destruct (printImage B img); simpl; intros H;
        repeat (destruct H as [H | H]; try discriminate H);
        try contradiction; inversion H; reflexivity.
    + simpl. intros H.
      repeat (destruct H as [H | H]; try discriminate H);
        try contradiction; inversion H; reflexivity.
Qed.

(** C10: [normalizeTextForPrinting] puts four spaces in the place of
    every tab and keeps every other character; its result has no tab, the
    text [onPrintClick] hands to [renderTextToCanvas] is that result, and
    what the wrapping loop reads has no tab either. *)
Theorem normalizeTextForPrinting_expands_tabs (value : jsstring) :
  normalizeTextForPrinting value
  = concat (map (fun c => if N.eqb c TAB
                          then [SPACE; SPACE; SPACE; SPACE]
                          else [c]) value)
  /\ ~ In TAB (normalizeTextForPrinting value)
  /\ ~ In TAB (replace_crlf (normalizeTextForPrinting value))
  /\ (forall (B : Browser) (st : AppState) (options : RenderOptions),
         textInput st = value ->
         In (RenderText options) (onPrintClick B st) ->
         text options = normalizeTextForPrinting value
         /\ ~ In TAB (text options)).
Proof.
  unfold normalizeTextForPrinting.
  split; [apply replace_tabs_expand|].
  split; [apply replace_tabs_no_tab|].
  split.
  - intros H. apply replace_crlf_In in H. revert H. apply replace_tabs_no_tab.
  - intros B st options Hvalue Hin.
    apply onPrintClick_rendered_text in Hin.
    unfold printableText, normalizeTextForPrinting in Hin.
    rewrite Hvalue in Hin. split; [exact Hin|].
    rewrite Hin. apply replace_tabs_no_tab.
Qed.

Lemma normalizeTextForPrinting_expands_tabs_witness :
  In (RenderText (text_options (js "a    b") blank_canvas 120))
     (onPrintClick blank_browser (text_mode_state [97; 9; 98]%N 0))
  /\ text (text_options (js "a    b") blank_canvas 120)
     = normalizeTextForPrinting [97; 9; 98]%N.
Proof.
  assert (Hin : In (RenderText (text_options (js "a    b") blank_canvas 120))
                   (onPrintClick blank_browser
                      (text_mode_state [97; 9; 98]%N 0))).
  { (* [blank_browser] paints nothing: the image is the blank one. *)
    change (In (RenderText (text_options (js "a    b") blank_canvas 120))
              [RenderText (text_options (js "a    b") blank_canvas 120);
               PrintImage hello_image]).
    left. reflexivity. }
  split; [exact Hin|].
  destruct (normalizeTextForPrinting_expands_tabs [97; 9; 98]%N)
    as (_ & _ & _ & H).
  exact (proj1 (H blank_browser (text_mode_state [97; 9; 98]%N 0)
                  (text_options (js "a    b") blank_canvas 120)
                  eq_refl Hin)).
Defined.

(** ** Running the pass twice *)

(** Running the pass on its own output changes nothing. *)
Lemma threshold_pixels_idempotent (data : list Z) :
  threshold_pixels TEXT_THRESHOLD (threshold_pixels TEXT_THRESHOLD data)
  = threshold_pixels TEXT_THRESHOLD data.
Proof.
  induction data as [data IH] using (induction_ltof1 _ (@length Z)).
  unfold ltof in IH.
  destruct data as [|r [|g [|b [|a rest]]]]; try reflexivity;
    unfold threshold_pixels, luminance; simpl;
    try (destruct (quantize_binary TEXT_THRESHOLD r) as [-> | ->];
         reflexivity).
  fold (threshold_pixels TEXT_THRESHOLD rest).
  fold (threshold_pixels TEXT_THRESHOLD
          (threshold_pixels TEXT_THRESHOLD rest)).
  rewrite IH by (simpl; lia).
  destruct (quantize_binary TEXT_THRESHOLD r) as [-> | ->]; reflexivity.
Qed.

Lemma threshold_pass_idempotent (data : list Z) :
  threshold_pass TEXT_THRESHOLD (threshold_pass TEXT_THRESHOLD data)
  = threshold_pass TEXT_THRESHOLD data.
Proof. rewrite !threshold_pass_pixels. apply threshold_pixels_idempotent. Qed.

(** * Further properties *)

(** ** Line ends *)

Lemma replace_crlf_no_newline (value : jsstring) :
  Forall (fun c => c <> LF) value -> replace_crlf value = value.
Proof.
  induction value as [|c rest IH]; intros Hall; [reflexivity|].
  inversion Hall as [|? ? Hc Hrest]; subst.
  destruct rest as [|d rest']; [reflexivity|].
  cbn [replace_crlf].
  inversion Hrest as [|? ? Hd _]; subst.
  replace (N.eqb d LF) with false by (symmetry; apply N.eqb_neq; exact Hd).
  rewrite andb_false_r. f_equal. apply IH, Hrest.
Qed.

Lemma replace_crlf_pair (c d : code_unit) (rest : jsstring) :
  replace_crlf (c :: d :: rest)
  = if N.eqb c CR && N.eqb d LF then LF :: replace_crlf rest
    else c :: replace_crlf (d :: rest).
Proof. reflexivity. Qed.

Lemma replace_crlf_cons (c : code_unit) (rest : jsstring) :
  c <> CR -> replace_crlf (c :: rest) = c :: replace_crlf rest.
Proof.
  intros Hc. destruct rest as [|d rest']; [reflexivity|].
  cbn [replace_crlf].
  replace (N.eqb c CR) with false by (symmetry; apply N.eqb_neq; exact Hc).
  reflexivity.
Qed.

(** A line feed after a text that does not end in a carriage return is
    kept, and the scan goes on with what follows it. *)
Lemma replace_crlf_app_lf (a b : jsstring) :
  last a <> Some CR ->
  replace_crlf (a ++ LF :: b) = replace_crlf a ++ LF :: replace_crlf b.
Proof.
  induction a as [a IH] using (induction_ltof1 _ (@length code_unit)).
  unfold ltof in IH. intros Hlast.
  destruct a as [|x [|y a']].
  - simpl app. apply replace_crlf_cons. discriminate.
  - simpl app. rewrite replace_crlf_cons.
    + rewrite replace_crlf_cons by discriminate. reflexivity.
    + intros ->. apply Hlast. reflexivity.
  - change ((x :: y :: a') ++ LF :: b) with (x :: y :: (a' ++ LF :: b)).
    rewrite (replace_crlf_pair x y a'), (replace_crlf_pair x y (a' ++ _)).
    destruct (N.eqb x CR && N.eqb y LF).
    + rewrite IH; [reflexivity | simpl; lia |].
      destruct a' as [|z a'']; [discriminate | exact Hlast].
    + change (y :: a' ++ LF :: b) with ((y :: a') ++ LF :: b).
      rewrite IH; [reflexivity | simpl; lia | exact Hlast].
Qed.

(** A CR LF pair becomes one line feed wherever it stands. *)
Lemma replace_crlf_app_crlf (a b : jsstring) :
  replace_crlf (a ++ CR :: LF :: b) = replace_crlf a ++ LF :: replace_crlf b.
Proof.
  induction a as [a IH] using (induction_ltof1 _ (@length code_unit)).
  unfold ltof in IH.
  destruct a as [|x [|y a']].
  - reflexivity.
  - simpl app. rewrite (replace_crlf_pair x CR).
    replace (N.eqb CR LF) with false by reflexivity.
    rewrite andb_false_r. reflexivity.
  - change ((x :: y :: a') ++ CR :: LF :: b)
      with (x :: y :: (a' ++ CR :: LF :: b)).
    rewrite (replace_crlf_pair x y a'), (replace_crlf_pair x y (a' ++ _)).
    destruct (N.eqb x CR && N.eqb y LF).
    + rewrite IH by (simpl; lia). reflexivity.
    + change (y :: a' ++ CR :: LF :: b) with ((y :: a') ++ CR :: LF :: b).
      rewrite IH by (simpl; lia). reflexivity.
Qed.

Lemma replace_crlf_length (value : jsstring) :
  (length (replace_crlf value) <= length value)%nat.
Proof.
  induction value as [value IH] using (induction_ltof1 _ (@length code_unit)).
  unfold ltof in IH.
  destruct value as [|c [|d rest]]; simpl; try lia.
  destruct (N.eqb c CR && N.eqb d LF); simpl.
  - specialize (IH rest). simpl in IH. lia.
  - specialize (IH (d :: rest)). simpl in IH. lia.
Qed.

Lemma replace_crlf_newlines (value : jsstring) :
  count_newlines (replace_crlf value) = count_newlines value.
Proof.
  unfold count_newlines.
  induction value as [value IH] using (induction_ltof1 _ (@length code_unit)).
  unfold ltof in IH.
  destruct value as [|c [|d rest]]; try reflexivity.
  rewrite replace_crlf_pair.
  destruct (N.eqb c CR && N.eqb d LF) eqn:E.
  - apply andb_true_iff in E as [Ec Ed].
    apply N.eqb_eq in Ec, Ed. subst c d. simpl.
    rewrite IH by (simpl; lia). reflexivity.
  - pose proof (IH (d :: rest) ltac:(simpl; lia)) as IHd.
    cbn [List.filter]. destruct (N.eqb c LF); cbn [length];
      rewrite IHd; reflexivity.
Qed.

(** ** Paragraphs *)

(** Lines pushed before the loop starts stay in front and do not
    influence what the loop does. *)
Lemma wrap_step_prepend (limit : Z) (L : list jsstring) (st : wrap_state)
    (c : code_unit) :
  wrap_step limit
    (WrapState (L ++ lines st) (currentLine st) (column st)
               (lastBreakColumn st) (lastBreakIndex st)) c
  = WrapState (L ++ lines (wrap_step limit st c))
              (currentLine (wrap_step limit st c))
              (column (wrap_step limit st c))
              (lastBreakColumn (wrap_step limit st c))
              (lastBreakIndex (wrap_step limit st c)).
Proof.
  unfold wrap_step, pushCurrentLine. simpl.
  destruct (N.eqb c LF); simpl; [rewrite app_assoc; reflexivity|].
  destruct (is_break c);
    (destruct (_ >=? limit); [destruct (_ && _)|]);
    try destruct (rescan_breaks _ _ _); simpl;
    rewrite ?app_assoc; reflexivity.
Qed.

Lemma wrap_loop_prepend (limit : Z) (L : list jsstring) (chars : jsstring) :
  forall st,
    wrap_loop limit chars
      (WrapState (L ++ lines st) (currentLine st) (column st)
                 (lastBreakColumn st) (lastBreakIndex st))
    = WrapState (L ++ lines (wrap_loop limit chars st))
                (currentLine (wrap_loop limit chars st))
                (column (wrap_loop limit chars st))
                (lastBreakColumn (wrap_loop limit chars st))
                (lastBreakIndex (wrap_loop limit chars st)).
Proof.
  unfold wrap_loop.
  induction chars as [|c chars IH]; intros st; simpl; [reflexivity|].
  rewrite wrap_step_prepend. apply IH.
Qed.

(** The loop on two texts separated by a line feed. *)
Lemma wrap_loop_newline (limit : Z) (n1 n2 : jsstring) :
  let st1 := wrap_loop limit n1 wrap_init in
  let st2 := wrap_loop limit n2 wrap_init in
  let st := wrap_loop limit (n1 ++ LF :: n2) wrap_init in
  lines st ++ [currentLine st]
  = (lines st1 ++ [currentLine st1]) ++ (lines st2 ++ [currentLine st2]).
Proof.
  cbv zeta. unfold wrap_loop. rewrite fold_left_app. simpl.
  fold (wrap_loop limit n1 wrap_init).
  set (st1 := wrap_loop limit n1 wrap_init).
  assert (Hpush : wrap_step limit st1 LF
                  = WrapState
                      ((lines st1 ++ [currentLine st1]) ++ lines wrap_init)
                      (currentLine wrap_init) (column wrap_init)
                      (lastBreakColumn wrap_init) (lastBreakIndex wrap_init)).
  { simpl. rewrite app_nil_r. reflexivity. }
  rewrite Hpush.
  pose proof (wrap_loop_prepend limit (lines st1 ++ [currentLine st1])
                n2 wrap_init) as Hpre.
  unfold wrap_loop in Hpre. rewrite Hpre. simpl.
  rewrite <- app_assoc. reflexivity.
Qed.

Lemma wrapMonospaceText_newline (a b : jsstring) (maxCharsPerLine : Z) :
  last a <> Some CR ->
  wrapMonospaceText (a ++ LF :: b) maxCharsPerLine
  = wrapMonospaceText a maxCharsPerLine
    ++ wrapMonospaceText b maxCharsPerLine.
Proof.
  intros Hlast. unfold wrapMonospaceText. cbv zeta.
  rewrite replace_crlf_app_lf by assumption.
  apply (wrap_loop_newline (Z.max 1 maxCharsPerLine)).
Qed.

Lemma wrapMonospaceText_one_line (value : jsstring) (maxCharsPerLine : Z) :
  Forall (fun c => c <> LF) value ->
  jslength value < Z.max 1 maxCharsPerLine ->
  wrapMonospaceText value maxCharsPerLine = [value].
Proof.
  intros Hnl Hshort. unfold wrapMonospaceText. cbv zeta.
  rewrite replace_crlf_no_newline by assumption.
  assert (Hlimit : 1 <= Z.max 1 maxCharsPerLine) by lia.
  destruct (wrap_loop_short (Z.max 1 maxCharsPerLine) Hlimit value wrap_init)
    as [Hl Hc]; try assumption.
  - apply wrap_inv_init, Hlimit.
  - rewrite Hl, Hc. reflexivity.
Qed.

(** X1: a line end separates independently wrapped paragraphs: the lines
    of [a], a line end, [b] are the lines of [a] followed by the lines of
    [b].  For a CR LF line end this holds always, for a bare LF when [a]
    does not end in a carriage return. *)
Theorem wrapMonospaceText_paragraphs (a b : jsstring) (maxCharsPerLine : Z) :
  wrapMonospaceText (a ++ CR :: LF :: b) maxCharsPerLine
  = wrapMonospaceText a maxCharsPerLine
    ++ wrapMonospaceText b maxCharsPerLine
  /\ (last a <> Some CR ->
      wrapMonospaceText (a ++ LF :: b) maxCharsPerLine
      = wrapMonospaceText a maxCharsPerLine
        ++ wrapMonospaceText b maxCharsPerLine).
Proof.
  split.
  - unfold wrapMonospaceText. cbv zeta.
    rewrite replace_crlf_app_crlf.
    apply (wrap_loop_newline (Z.max 1 maxCharsPerLine)).
  - apply wrapMonospaceText_newline.
Qed.

Lemma wrapMonospaceText_paragraphs_witness :
  last (js "hello world") <> Some CR
  /\ wrapMonospaceText (js "hello world" ++ LF :: js "bye") 8
     = wrapMonospaceText (js "hello world") 8 ++ wrapMonospaceText (js "bye") 8.
Proof.
  assert (H : last (js "hello world") <> Some CR) by discriminate.
  split; [exact H|].
  exact (proj2 (wrapMonospaceText_paragraphs (js "hello world") (js "bye") 8)
           H).
Defined.

(** X2: lines that are shorter than the limit, have no line feed and do
    not end in a carriage return come back unchanged when they are joined
    by line feeds and wrapped. *)
Theorem wrapMonospaceText_join_lines (ps : list jsstring)
    (maxCharsPerLine : Z) :
  ps <> [] ->
  Forall (fun p => Forall (fun c => c <> LF) p
                   /\ jslength p < Z.max 1 maxCharsPerLine
                   /\ last p <> Some CR) ps ->
  wrapMonospaceText (join_lines ps) maxCharsPerLine = ps.
Proof.
  intros Hne Hall.
  induction ps as [|p rest IH]; [congruence|].
  inversion Hall as [|? ? (Hnl & Hshort & Hcr) Hrest]; subst.
  destruct rest as [|q rest].
  - simpl. apply wrapMonospaceText_one_line; assumption.
  - change (join_lines (p :: q :: rest))
      with (p ++ LF :: join_lines (q :: rest)).
    rewrite wrapMonospaceText_newline by assumption.
    rewrite wrapMonospaceText_one_line by assumption.
    rewrite IH by (assumption || discriminate). reflexivity.
Qed.

Lemma wrapMonospaceText_join_lines_witness :
  wrapMonospaceText (join_lines [js "one"; js ""; js "two words"]) 39
  = [js "one"; js ""; js "two words"].
Proof.
  apply wrapMonospaceText_join_lines; [discriminate|].
  repeat constructor; try discriminate; reflexivity.
Defined.

(** ** The number of lines *)

Lemma wrap_step_count (limit : Z) (st : wrap_state) (c : code_unit) :
  let n := length (lines st) in
  let n' := length (lines (wrap_step limit st c)) in
  (n <= n' <= n + 1)%nat /\ (c = LF -> n' = n + 1)%nat.
Proof.
  unfold wrap_step, pushCurrentLine. cbv zeta.
  destruct (N.eqb c LF) eqn:E.
  - simpl. rewrite length_app. simpl. lia.
  - split; [|intros ->; discriminate E].
    destruct (is_break c);
      (destruct (_ >=? limit); [destruct (_ && _)|]);
      try destruct (rescan_breaks _ _ _); simpl;
      rewrite ?length_app; simpl; lia.
Qed.

Lemma wrap_loop_count (limit : Z) (chars : jsstring) :
  forall st,
    let n := length (lines st) in
    let n' := length (lines (wrap_loop limit chars st)) in
    (n + count_newlines chars <= n' <= n + length chars)%nat.
Proof.
  unfold wrap_loop, count_newlines.
  induction chars as [|c chars IH]; intros st; simpl; [lia|].
  specialize (IH (wrap_step limit st c)). cbv zeta in IH.
  destruct (wrap_step_count limit st c) as [Hstep Hlf]. cbv zeta in *.
  destruct (N.eqb c LF) eqn:E; simpl.
  - apply N.eqb_eq in E. specialize (Hlf E). lia.
  - lia.
Qed.

(** X3: the number of lines returned is at least one more than the number
    of line feeds of the input, and at most one more than its number of
    characters. *)
Theorem wrapMonospaceText_line_count (value : jsstring)
    (maxCharsPerLine : Z) :
  (count_newlines value + 1
   <= length (wrapMonospaceText value maxCharsPerLine)
   <= length value + 1)%nat.
Proof.
  unfold wrapMonospaceText. cbv zeta. rewrite length_app. simpl.
  pose proof (wrap_loop_count (Z.max 1 maxCharsPerLine)
                (replace_crlf value) wrap_init) as H.
  cbv zeta in H. simpl in H.
  rewrite replace_crlf_newlines in H.
  pose proof (replace_crlf_length value). lia.
Qed.

(** ** Long words and narrow limits *)

(** A text of exactly [limit] characters without line feed or breakable
    character fills one line and leaves the loop on an empty one. *)
Lemma wrap_loop_fill (limit : Z) (chunk : jsstring) :
  1 <= limit ->
  Forall (fun c => c <> LF) chunk -> no_break chunk ->
  jslength chunk = limit ->
  wrap_loop limit chunk wrap_init = WrapState [chunk] [] 0 (-1) (-1).
Proof.
  intros Hlimit Hnl Hnb Hlen.
  assert (Hne : chunk <> []).
  { intros ->. unfold jslength in Hlen. simpl in Hlen. lia. }
  destruct (List.exists_last Hne) as (front & c & ->).
  apply Forall_app in Hnl as [Hnl Hc].
  apply Forall_cons in Hc as [Hc' _].
  assert (Hfront : jslength front + 1 = limit).
  { rewrite jslength_app in Hlen. exact Hlen. }
  pose proof (wrap_inv_init limit Hlimit) as Hinit.
  destruct (wrap_loop_short limit Hlimit front wrap_init Hinit Hnl)
    as [Hl Hcur];
    [change (jslength (currentLine wrap_init)) with 0; lia|].
  pose proof (wrap_loop_inv limit Hlimit front wrap_init Hinit) as Hinv.
  unfold wrap_loop in *. rewrite fold_left_app. simpl.
  set (st := fold_left (wrap_step limit) front wrap_init) in *.
  destruct (wrap_step_cases limit st c Hinv Hc') as (_ & _ & Hat).
  rewrite Hcur in Hat. simpl in Hat.
  destruct (Hat Hlen) as [_ Hhard].
  rewrite (Hhard (or_introl Hnb)). rewrite Hl. reflexivity.
Qed.

(** X4: a text without line feed and without space, tab or hyphen that
    is at least as long as the limit is cut after exactly [limit]
    characters, and the rest is wrapped on its own; a text of exactly
    [limit] characters therefore gives its line and an empty one. *)
Theorem wrapMonospaceText_long_word (value : jsstring) (maxCharsPerLine : Z) :
  let limit := Z.max 1 maxCharsPerLine in
  Forall (fun c => c <> LF) value -> no_break value ->
  limit <= jslength value ->
  wrapMonospaceText value maxCharsPerLine
  = take (Z.to_nat limit) value
    :: wrapMonospaceText (drop (Z.to_nat limit) value) maxCharsPerLine.
Proof.
  intros limit Hnl Hnb Hlen.
  assert (Hlimit : 1 <= limit) by (subst limit; lia).
  set (k := Z.to_nat limit).
  assert (Hnl' : Forall (fun c => c <> LF) (take k value)
                 /\ Forall (fun c => c <> LF) (drop k value)).
  { apply Forall_app. rewrite take_drop. exact Hnl. }
  assert (Hnb' : no_break (take k value) /\ no_break (drop k value)).
  { apply no_break_app. rewrite take_drop. exact Hnb. }
  assert (Hk : jslength (take k value) = limit).
  { unfold jslength in *. rewrite length_take. subst k. lia. }
  unfold wrapMonospaceText. fold limit.
  rewrite !replace_crlf_no_newline by tauto.
  rewrite <- (take_drop k value) at 1 2.
  unfold wrap_loop. rewrite fold_left_app.
  pose proof (wrap_loop_fill limit (take k value) Hlimit
                (proj1 Hnl') (proj1 Hnb') Hk) as Hfill.
  unfold wrap_loop in Hfill. rewrite Hfill.
  pose proof (wrap_loop_prepend limit [take k value] (drop k value) wrap_init)
    as Hpre.
  unfold wrap_loop in Hpre. simpl in Hpre. rewrite Hpre. reflexivity.
Qed.

Lemma wrapMonospaceText_long_word_witness :
  wrapMonospaceText (js "abcde") 5 = [js "abcde"; js ""].
Proof.
  apply (wrapMonospaceText_long_word (js "abcde") 5).
  - repeat constructor; discriminate.
  - repeat constructor.
  - vm_compute. discriminate.
Defined.

Lemma wrap_loop_limit_one (chars : jsstring) :
  forall L,
    wrap_loop 1 chars (WrapState L [] 0 (-1) (-1))
    = WrapState
        (L ++ map (fun c => if N.eqb c LF then [] else [c]) chars)
        [] 0 (-1) (-1).
Proof.
  unfold wrap_loop.
  induction chars as [|c chars IH]; intros L; simpl.
  - rewrite app_nil_r. reflexivity.
  - assert (Hstep : wrap_step 1 (WrapState L [] 0 (-1) (-1)) c
                    = WrapState (L ++ [if N.eqb c LF then [] else [c]])
                        [] 0 (-1) (-1)).
    { unfold wrap_step, pushCurrentLine. simpl.
      destruct (N.eqb c LF); [reflexivity|].
      destruct (is_break c); reflexivity. }
    rewrite Hstep, IH. rewrite <- app_assoc. reflexivity.
Qed.

(** X5: with a limit of one or less, every character is a line of its
    own, every line feed is an empty line, and an empty line ends the
    result. *)
Theorem wrapMonospaceText_limit_one (value : jsstring) (maxCharsPerLine : Z) :
  maxCharsPerLine <= 1 ->
  wrapMonospaceText value maxCharsPerLine
  = map (fun c => if N.eqb c LF then [] else [c]) (replace_crlf value)
    ++ [[]].
Proof.
  intros Hm. unfold wrapMonospaceText. cbv zeta.
  replace (Z.max 1 maxCharsPerLine) with 1 by lia.
  change wrap_init with (WrapState [] [] 0 (-1) (-1)).
  rewrite wrap_loop_limit_one. reflexivity.
Qed.

Lemma wrapMonospaceText_limit_one_witness :
  wrapMonospaceText (js "a b") 0 = [js "a"; js " "; js "b"; js ""].
Proof.
  apply (wrapMonospaceText_limit_one (js "a b") 0). lia.
Defined.

(** X6: no line returned contains a line feed. *)
Theorem wrapMonospaceText_no_newline (value : jsstring)
    (maxCharsPerLine : Z) :
  Forall (fun line => ~ In LF line)
         (wrapMonospaceText value maxCharsPerLine).
Proof.
  apply List.Forall_forall. intros line Hline Hin.
  assert (Hall : In LF (concat (wrapMonospaceText value maxCharsPerLine))).
  { apply in_concat. exists line. split; assumption. }
  unfold wrapMonospaceText in Hall. cbv zeta in Hall.
  rewrite concat_app in Hall. simpl in Hall. rewrite app_nil_r in Hall.
  pose proof (wrap_loop_text (Z.max 1 maxCharsPerLine)
                (replace_crlf value) wrap_init) as Htext.
  cbv zeta in Htext. simpl in Htext. rewrite Htext in Hall.
  unfold without_newlines in Hall.
  apply filter_In in Hall as [_ Hneq]. discriminate Hneq.
Qed.

(** ** Where lines are cut *)

Lemma wrap_step_cut (limit : Z) (st : wrap_state) (c : code_unit) :
  wrap_inv limit st -> c <> LF ->
  Forall (well_cut limit) (lines st) ->
  Forall (well_cut limit) (lines (wrap_step limit st c)).
Proof.
  intros Hinv Hc Hcut.
  destruct (wrap_step_cases limit st c Hinv Hc) as (Hle & Hbelow & Hat).
  cbv zeta in *.
  destruct (Z.eq_dec (jslength (currentLine st ++ [c])) limit) as [E | E].
  - destruct (Hat E) as [Hsoft Hhard].
    destruct (break_shape (currentLine st ++ [c]))
      as [Hno | (pre & b & post & Eline & Hb & Hpost)].
    + rewrite Hhard by (left; assumption). simpl.
      apply Forall_app. split; [assumption|].
      constructor; [|constructor]. right. split; assumption.
    + destruct post as [|p post].
      * apply app_inj_tail in Eline as [Epre ->].
        rewrite Hhard by (right; assumption). simpl.
        apply Forall_app. split; [assumption|].
        constructor; [|constructor]. left. exists (currentLine st), b. auto.
      * rewrite (Hsoft pre b (p :: post)) by (auto; discriminate). simpl.
        apply Forall_app. split; [assumption|].
        constructor; [|constructor]. left. exists pre, b. auto.
  - rewrite Hbelow by lia. simpl. assumption.
Qed.

Lemma wrap_loop_cut (limit : Z) (chars : jsstring) :
  1 <= limit ->
  forall st,
    wrap_inv limit st ->
    Forall (fun c => c <> LF) chars ->
    Forall (well_cut limit) (lines st) ->
    Forall (well_cut limit) (lines (wrap_loop limit chars st)).
Proof.
  intros Hlimit. unfold wrap_loop.
  induction chars as [|c chars IH]; intros st Hinv Hnl Hcut; simpl.
  - assumption.
  - apply Forall_cons in Hnl as [Hc Hnl]. apply IH.
    + apply wrap_step_inv; assumption.
    + assumption.
    + apply wrap_step_cut; assumption.
Qed.

(** X7: a word is only split when it does not fit on a line: for a text
    without line feed, every line but the last ends in a space, a tab or
    a hyphen, or else has no such character at all and is exactly
    [limit] characters long. *)
Theorem wrapMonospaceText_cuts (value : jsstring) (maxCharsPerLine : Z) :
  Forall (fun c => c <> LF) value ->
  Forall (well_cut (Z.max 1 maxCharsPerLine))
         (removelast (wrapMonospaceText value maxCharsPerLine)).
Proof.
  intros Hnl. unfold wrapMonospaceText. cbv zeta.
  rewrite removelast_last.
  rewrite replace_crlf_no_newline by assumption.
  assert (Hlimit : 1 <= Z.max 1 maxCharsPerLine) by lia.
  apply wrap_loop_cut; try assumption.
  - apply wrap_inv_init, Hlimit.
  - constructor.
Qed.

Lemma wrapMonospaceText_cuts_witness :
  Forall (well_cut 8)
         (removelast (wrapMonospaceText (js "hello world, goodbye") 8)).
Proof.
  apply (wrapMonospaceText_cuts (js "hello world, goodbye") 8).
  repeat constructor; discriminate.
Defined.

Example wrap_hello_world_goodbye :
  wrapMonospaceText (js "hello world, goodbye") 8
  = [js "hello "; js "world, "; js "goodbye"].
Proof. reflexivity. Qed.

(** [onImageInputChange] and [onDrop] pass on the first file only. *)
Lemma onFiles_first (renderImage : RenderImage) (st : AppState)
    (file : File) (others : list File) :
  onFiles renderImage st (file :: others) = handleFile renderImage st file
  /\ onFiles renderImage st [] = (st, []).
Proof. split; reflexivity. Qed.

(** ** More on the thresholding pass *)

Lemma quantize_below (threshold : number) (r : Z) :
  (inject_Z r < threshold)%Q -> quantize threshold r = 0.
Proof.
  intros H. unfold quantize, Qltb.
  destruct (Qle_bool threshold (inject_Z r)) eqn:E; [|reflexivity].
  apply Qle_bool_iff in E. exfalso. exact (Qlt_not_le _ _ H E).
Qed.

Lemma quantize_above (threshold : number) (r : Z) :
  (threshold <= inject_Z r)%Q -> quantize threshold r = 255.
Proof.
  intros H. unfold quantize, Qltb.
  apply Qle_bool_iff in H. rewrite H. reflexivity.
Qed.

Lemma quantize_cases (threshold : number) (r : Z) :
  ((inject_Z r < threshold)%Q /\ quantize threshold r = 0)
  \/ ((threshold <= inject_Z r)%Q /\ quantize threshold r = 255).
Proof.
  destruct (Qlt_le_dec (inject_Z r) threshold) as [H | H].
  - left. split; [exact H | apply quantize_below, H].
  - right. split; [exact H | apply quantize_above, H].
Qed.

(** Quantizing a byte twice is quantizing it once. *)
Lemma quantize_byte_idempotent (threshold : number) (r : Z) :
  is_byte r ->
  quantize threshold (quantize threshold r) = quantize threshold r.
Proof.
  intros [Hlo Hhi].
  destruct (quantize_cases threshold r) as [[H ->] | [H ->]].
  - apply quantize_below.
    apply Qle_lt_trans with (inject_Z r); [|exact H].
    rewrite <- Zle_Qle. exact Hlo.
  - apply quantize_above.
    apply Qle_trans with (inject_Z r); [exact H|].
    rewrite <- Zle_Qle. exact Hhi.
Qed.

(** X8: the pass keeps the length of the buffer, whatever it is; it
    keeps every alpha byte; and every other byte comes out 0 or 255. *)
Theorem threshold_pass_shape (threshold : number) (data : list Z) :
  length (threshold_pass threshold data) = length data
  /\ forall k v,
       threshold_pass threshold data !! k = Some v ->
       ((k mod 4 = 3)%nat /\ data !! k = Some v)
       \/ ((k mod 4 <> 3)%nat /\ (v = 0 \/ v = 255)).
Proof.
  split; [apply threshold_pass_length|].
  intros k v Hk. rewrite threshold_pass_lookup in Hk.
  apply fmap_Some in Hk as (x & Hx & ->).
  destruct (k mod 4 =? 3)%nat eqn:E.
  - left. apply Nat.eqb_eq in E. auto.
  - right. apply Nat.eqb_neq in E. split; [exact E|].
    apply quantize_binary.
Qed.

Lemma threshold_pass_shape_witness :
  length (threshold_pass TEXT_THRESHOLD [10; 250; 250; 255; 230; 0])
  = 6%nat
  /\ (((1 mod 4 = 3)%nat /\ [10; 250; 250; 255; 230; 0] !! 1%nat = Some 0)
      \/ ((1 mod 4 <> 3)%nat /\ (0 = 0 \/ 0 = 255))).
Proof.
  destruct (threshold_pass_shape TEXT_THRESHOLD [10; 250; 250; 255; 230; 0])
    as [Hlen Hbytes].
  split; [exact Hlen|]. exact (Hbytes 1%nat 0 eq_refl).
Defined.

(** X9: on a buffer of bytes the pass is idempotent, for every
    threshold: thresholding what has been thresholded changes nothing. *)
Theorem threshold_pass_twice (threshold : number) (data : list Z) :
  Forall is_byte data ->
  threshold_pass threshold (threshold_pass threshold data)
  = threshold_pass threshold data.
Proof.
  intros Hbytes. apply list_eq. intros k.
  rewrite (threshold_pass_lookup threshold (threshold_pass threshold data)).
  rewrite !threshold_pass_lookup.
  destruct (data !! k) as [x|] eqn:Hx; [|reflexivity].
  cbv [fmap option_fmap option_map]. f_equal.
  destruct (k mod 4 =? 3)%nat; [reflexivity|].
  destruct (pixel_start k) as [Hmod Hle].
  set (base := (k - k mod 4)%nat) in *.
  assert (Hbase : is_Some (data !! base)).
  { apply lookup_lt_is_Some. apply lookup_lt_Some in Hx. lia. }
  destruct Hbase as [r Hr].
  assert (Hlum : luminance (threshold_pass threshold data) base
                 = quantize threshold r).
  { unfold luminance at 1. rewrite threshold_pass_lookup, Hr.
    cbv [fmap option_fmap option_map default]. rewrite Hmod.
    change (0 =? 3)%nat with false. rewrite Nat.sub_0_r.
    unfold luminance. rewrite Hr. reflexivity. }
  rewrite Hlum. unfold luminance. rewrite Hr.
  cbv [default].
  apply quantize_byte_idempotent.
  rewrite Forall_lookup in Hbytes. exact (Hbytes base r Hr).
Qed.

Lemma threshold_pass_twice_witness :
  threshold_pass 128%Q (threshold_pass 128%Q [10; 250; 250; 255; 230; 0; 0; 128])
  = threshold_pass 128%Q [10; 250; 250; 255; 230; 0; 0; 128].
Proof.
  apply threshold_pass_twice.
  repeat constructor; unfold is_byte; lia.
Defined.

(** X10: raising the threshold never turns a black byte white: byte by
    byte, the output for the higher threshold is at most the output for
    the lower one. *)
Theorem threshold_pass_monotone (low high : number) (data : list Z) :
  (low <= high)%Q ->
  forall k v v',
    threshold_pass low data !! k = Some v ->
    threshold_pass high data !! k = Some v' ->
    v' <= v.
Proof.
  intros Hle k v v' Hv Hv'.
  rewrite threshold_pass_lookup in Hv, Hv'.
  apply fmap_Some in Hv as (x & Hx & ->).
  apply fmap_Some in Hv' as (x' & Hx' & ->).
  assert (x' = x) by congruence. subst x'.
  destruct (k mod 4 =? 3)%nat; [lia|].
  set (s := luminance data (k - k mod 4)).
  destruct (quantize_cases low s) as [[H ->] | [H ->]].
  - rewrite quantize_below; [lia|].
    apply Qlt_le_trans with low; assumption.
  - destruct (quantize_binary high s) as [-> | ->]; lia.
Qed.

Lemma threshold_pass_monotone_witness :
  (100 <= 200)%Q
  /\ threshold_pass 100%Q [150; 0; 0; 255] !! 0%nat = Some 255
  /\ threshold_pass 200%Q [150; 0; 0; 255] !! 0%nat = Some 0
  /\ 0 <= 255.
Proof.
  assert (H : (100 <= 200)%Q) by (vm_compute; discriminate).
  split; [exact H|]. split; [reflexivity|]. split; [reflexivity|].
  exact (threshold_pass_monotone 100%Q 200%Q [150; 0; 0; 255] H
           0%nat 255 0 eq_refl eq_refl).
Defined.

(** ** The layout of [renderTextToCanvas] *)

(** What a successful [renderTextToCanvas] returns. *)
Lemma renderTextToCanvas_Ok (B : Browser) (options : RenderOptions)
    (c : Canvas) (img : ImageData) :
  renderTextToCanvas B options = Ok (c, img) ->
  let L := text_layout B options in
  let font := {| font_size := fontSize options;
                 font_family := fontFamily options |} in
  image_width img = to_long (width options)
  /\ image_height img = Qceiling (layout_requiredHeight L)
  /\ image_data img
     = threshold_pass (threshold options)
         (rasterize B font (fillText_calls options L)
            (image_width img) (image_height img))
  /\ c = {| canvas_width := image_width img;
            canvas_height := image_height img;
            canvas_bitmap := image_data img |}.
Proof.
  unfold renderTextToCanvas, getImageData, fillText_calls.
  destruct (_ || _); [discriminate|].
  intros H. inversion H. subst. cbv zeta. simpl. auto.
Qed.

(** ** What a click reports *)

(** Every trace of [onPrintClick] is a lone alert, or one call of
    [printImage] with what follows it, after the rendering in text
    mode. *)
Lemma onPrintClick_shape (B : Browser) (st : AppState) :
  (exists message, onPrintClick B st = [Alert message])
  \/ (exists img,
         mode st = ImageMode /\ onPrintClick B st = try_printImage B img)
  \/ (exists options c img,
         mode st = TextMode
         /\ click_options st = Some options
         /\ renderTextToCanvas B options = Ok (c, img)
         /\ onPrintClick B st = RenderText options :: try_printImage B img).
Proof.
  destruct (mode st) eqn:Hmode.
  - unfold onPrintClick. rewrite Hmode.
    destruct (photoImageData st) as [img|]; eauto.
  - destruct (trim (printableText st)) as [|t ts] eqn:Htrim.
    { left. eexists. apply onPrintClick_blank; assumption. }
    destruct (click_options st) as [options|] eqn:Hopt.
    + right. right.
      destruct (onPrintClick_text B st options Hmode) as
        (c & img & ta & _ & _ & Hrender & Hclick & _);
        [rewrite Htrim; discriminate | assumption |].
      exists options, c, img. auto.
    + left. unfold click_options in Hopt. unfold onPrintClick.
      rewrite Hmode, Htrim.
      destruct (previewCanvas st), (textArea st); try discriminate Hopt;
        eauto.
Qed.

(** X14: a click calls [printImage] at most once and shows at most one
    alert; it shows none exactly when it called [printImage] and the
    call succeeded. *)
Theorem onPrintClick_reports (B : Browser) (st : AppState) :
  let trace := onPrintClick B st in
  (count_prints trace <= 1)%nat
  /\ (count_alerts trace <= 1)%nat
  /\ (count_alerts trace = 0%nat
      <-> exists img, In (PrintImage img) trace /\ printImage B img = None).
Proof.
  cbv zeta. unfold count_prints, count_alerts.
  destruct (onPrintClick_shape B st)
    as [[message ->] | [(img & _ & ->)
                       | (options & c & img & _ & _ & _ & ->)]].
  - split; [simpl; lia|]. split; [simpl; lia|]. split.
    + simpl. discriminate.
    + intros (img & [Hin | []] & _). discriminate Hin.
  - unfold try_printImage.
    destruct (printImage B img) as [e|] eqn:Hprint;
      (split; [simpl; lia|]); (split; [simpl; lia|]); split.
    + simpl. discriminate.
    + intros (img' & Hin & Hnone).
      destruct Hin as [Hin | [Hin | [Hin | []]]]; try discriminate Hin.
      inversion Hin; subst. congruence.
    + intros _. exists img. split; [left; reflexivity | exact Hprint].
    + reflexivity.
  - unfold try_printImage.
    destruct (printImage B img) as [e|] eqn:Hprint;
      (split; [simpl; lia|]); (split; [simpl; lia|]); split.
    + simpl. discriminate.
    + intros (img' & Hin & Hnone).
      destruct Hin as [Hin | [Hin | [Hin | [Hin | []]]]];
        try discriminate Hin.
      inversion Hin; subst. congruence.
    + intros _. exists img. split; [right; left; reflexivity | exact Hprint].
    + reflexivity.
Qed.

Lemma onPrintClick_reports_witness :
  count_alerts (onPrintClick blank_browser (text_mode_state (js "Hello") 0))
  = 0%nat.
Proof.
  apply (proj2 (proj2 (proj2 (onPrintClick_reports blank_browser
                                (text_mode_state (js "Hello") 0))))).
  exists hello_image. split; [|reflexivity].
  change (In (PrintImage hello_image)
            [RenderText (text_options (js "Hello") blank_canvas 120);
             PrintImage hello_image]).
  right. left. reflexivity.
Defined.

(** ** The blank-text guard and the raw input *)

Lemma replace_tabs_blank (value : jsstring) :
  Forall (fun c => is_whitespace c = true) (replace_tabs value)
  <-> Forall (fun c => is_whitespace c = true) value.
Proof.
  induction value as [|c rest IH]; simpl; [reflexivity|].
  destruct (N.eqb c TAB) eqn:E.
  - apply N.eqb_eq in E. subst c. simpl.
    rewrite !Forall_cons, IH. intuition reflexivity.
  - rewrite !Forall_cons, IH. reflexivity.
Qed.

(** X16: expanding the tabs does not change whether a text is blank: the
    guard of [onPrintClick] rejects the typed text exactly when that
    text, as typed, trims to the empty string. *)
Theorem blank_guard_on_input (B : Browser) (st : AppState) :
  (trim (printableText st) = [] <-> trim (textInput st) = [])
  /\ (mode st = TextMode ->
      (onPrintClick B st = [Alert "Please enter some text first."]
       <-> trim (textInput st) = [])).
Proof.
  assert (Hguard : trim (printableText st) = [] <-> trim (textInput st) = []).
  { unfold printableText, normalizeTextForPrinting.
    rewrite !trim_blank. apply replace_tabs_blank. }
  split; [exact Hguard|].
  intros Hmode. rewrite <- Hguard. split.
  - intros Hclick.
    destruct (trim (printableText st)) as [|t ts] eqn:Htrim; [reflexivity|].
    exfalso.
    destruct (click_options st) as [options|] eqn:Hopt.
    + destruct (onPrintClick_text B st options Hmode) as
        (c & img & ta & _ & _ & _ & Hclick' & _);
        [rewrite Htrim; discriminate | assumption |].
      rewrite Hclick' in Hclick. discriminate Hclick.
    + unfold click_options in Hopt. unfold onPrintClick in Hclick.
      rewrite Hmode, Htrim in Hclick.
      destruct (previewCanvas st), (textArea st); try discriminate Hopt;
        discriminate Hclick.
  - apply onPrintClick_blank, Hmode.
Qed.

Lemma blank_guard_on_input_witness :
  onPrintClick blank_browser (text_mode_state [9; 32; 9]%N 0)
  = [Alert "Please enter some text first."].
Proof.
  apply (proj2 (blank_guard_on_input blank_browser
                  (text_mode_state [9; 32; 9]%N 0)) eq_refl).
  reflexivity.
Defined.

(** ** The printed bitmap *)

Lemma printed_image_text (B : Browser) (st : AppState) (img : ImageData) :
  mode st = TextMode ->
  printed_image B st = Some img ->
  exists options c,
    click_options st = Some options
    /\ renderTextToCanvas B options = Ok (c, img).
Proof.
  intros Hmode Hprinted.
  destruct (onPrintClick_shape B st)
    as [[message Hclick] | [(img' & Himage & _)
                           | (options & c & img' & _ & Hopt & Hok & Hclick)]].
  - unfold printed_image in Hprinted. rewrite Hclick in Hprinted.
    discriminate Hprinted.
  - congruence.
  - exists options, c. split; [exact Hopt|].
    unfold printed_image in Hprinted. rewrite Hclick in Hprinted.
    unfold try_printImage in Hprinted.
    destruct (printImage B img'); simpl in Hprinted;
      inversion Hprinted; subst; exact Hok.
Qed.

(** X17: the image a click in text mode sends to the printer is pure
    black and white, whatever the browser painted: every red, green and
    blue byte is 0 or 255; and the canvas is left holding that very
    image. *)
Theorem printed_image_black_and_white (B : Browser) (st : AppState)
    (img : ImageData) :
  mode st = TextMode ->
  printed_image B st = Some img ->
  (forall k v,
      image_data img !! k = Some v -> (k mod 4 <> 3)%nat ->
      v = 0 \/ v = 255)
  /\ exists options c,
       click_options st = Some options
       /\ renderTextToCanvas B options = Ok (c, img)
       /\ c = {| canvas_width := image_width img;
                 canvas_height := image_height img;
                 canvas_bitmap := image_data img |}.
Proof.
  intros Hmode Hprinted.
  destruct (printed_image_text B st img Hmode Hprinted)
    as (options & c & Hopt & Hok).
  destruct (renderTextToCanvas_Ok B options c img Hok)
    as (_ & _ & Hdata & Hcanvas).
  split.
  - intros k v Hk Hmod. rewrite Hdata, threshold_pass_lookup in Hk.
    apply fmap_Some in Hk as (x & _ & ->).
    apply Nat.eqb_neq in Hmod. rewrite Hmod. apply quantize_binary.
  - exists options, c. auto.
Qed.

Lemma printed_image_black_and_white_witness :
  printed_image blank_browser (text_mode_state (js "Hello") 0)
  = Some hello_image
  /\ forall k v,
       image_data hello_image !! k = Some v -> (k mod 4 <> 3)%nat ->
       v = 0 \/ v = 255.
Proof.
  assert (Hprinted : printed_image blank_browser
                       (text_mode_state (js "Hello") 0)
                     = Some hello_image) by reflexivity.
  split; [exact Hprinted|].
  exact (proj1 (printed_image_black_and_white blank_browser
                  (text_mode_state (js "Hello") 0) hello_image
                  eq_refl Hprinted)).
Defined.

(** ** Tabs, once more *)

Lemma replace_tabs_app (a b : jsstring) :
  replace_tabs (a ++ b) = replace_tabs a ++ replace_tabs b.
Proof.
  induction a as [|c a IH]; simpl; [reflexivity|].
  rewrite IH. destruct (N.eqb c TAB); reflexivity.
Qed.

Lemma replace_tabs_no_tab_id (value : jsstring) :
  ~ In TAB value -> replace_tabs value = value.
Proof.
  induction value as [|c rest IH]; intros Hno; simpl; [reflexivity|].
  destruct (N.eqb c TAB) eqn:E.
  - apply N.eqb_eq in E. exfalso. apply Hno. left. exact E.
  - f_equal. apply IH. intros H. apply Hno. right. exact H.
Qed.

(** X18: [normalizeTextForPrinting] works piece by piece, adds three
    characters for every tab, and changes nothing when applied again. *)
Theorem normalizeTextForPrinting_laws (a b : jsstring) :
  normalizeTextForPrinting (a ++ b)
  = normalizeTextForPrinting a ++ normalizeTextForPrinting b
  /\ length (normalizeTextForPrinting a)
     = (length a + 3 * count_tabs a)%nat
  /\ normalizeTextForPrinting (normalizeTextForPrinting a)
     = normalizeTextForPrinting a.
Proof.
  unfold normalizeTextForPrinting. split; [apply replace_tabs_app|]. split.
  - unfold count_tabs. induction a as [|c a IH]; simpl; [reflexivity|].
    destruct (N.eqb c TAB); simpl; rewrite IH; lia.
  - apply replace_tabs_no_tab_id, replace_tabs_no_tab.
Qed.

(** ** Pasting, dropping and selecting an image *)

(** X19: [onPaste] handles one file at most: the file of the first
    clipboard item whose type starts with ["image/"] and that has a file;
    when there is no such item, it does nothing. *)
Theorem onPaste_first_image (renderImage : RenderImage) (st : AppState) :
  (forall pre item post file,
      Forall (fun i => is_image_item i = false \/ item_file i = None) pre ->
      is_image_item item = true ->
      item_file item = Some file ->
      onPaste renderImage st (pre ++ item :: post)
      = handleFile renderImage st file)
  /\ (forall items,
         Forall (fun i => is_image_item i = false \/ item_file i = None)
                items ->
         onPaste renderImage st items = (st, [])).
Proof.
  split.
  - intros pre item post file Hpre Himage Hfile.
    induction pre as [|i pre IH]; simpl.
    + rewrite Himage, Hfile. reflexivity.
    + apply Forall_cons in Hpre as [[Hi | Hi] Hpre]; rewrite Hi.
      * apply IH, Hpre.
      * destruct (is_image_item i); apply IH, Hpre.
  - intros items Hall.
    induction items as [|i items IH]; simpl; [reflexivity|].
    apply Forall_cons in Hall as [[Hi | Hi] Hall]; rewrite Hi.
    + apply IH, Hall.
    + destruct (is_image_item i); apply IH, Hall.
Qed.

Lemma onPaste_first_image_witness :
  onPaste sample_renderImage (text_mode_state (js "Hello") 0)
    [ {| item_type := "text/plain"; item_file := None |};
      {| item_type := "image/png"; item_file := None |};
      {| item_type := "image/png"; item_file := Some png_file |};
      {| item_type := "image/jpeg"; item_file := Some text_file |} ]
  = handleFile sample_renderImage (text_mode_state (js "Hello") 0) png_file.
Proof.
  apply (proj1 (onPaste_first_image sample_renderImage
                  (text_mode_state (js "Hello") 0))
           [ {| item_type := "text/plain"; item_file := None |};
             {| item_type := "image/png"; item_file := None |} ]
           {| item_type := "image/png"; item_file := Some png_file |}
           [ {| item_type := "image/jpeg"; item_file := Some text_file |} ]
           png_file).
  - constructor; [left; reflexivity|].
    constructor; [right; reflexivity|]. constructor.
  - reflexivity.
  - reflexivity.
Defined.

(** X20: a file is not handled without a canvas; and when the rendering
    fails, the failure is logged and alerted, the photo, the mode and the
    text stay as they were, and a click in image mode does what it did
    before. *)
Theorem handleFile_failure (renderImage : RenderImage) (B : Browser)
    (st : AppState) (file : File) :
  (previewCanvas st = None -> handleFile renderImage st file = (st, []))
  /\ (forall c c' error,
         previewCanvas st = Some c ->
         renderImage file c = (c', Throw error) ->
         let st' := (handleFile renderImage st file).1 in
         (handleFile renderImage st file).2
         = [ConsoleError "Rendering failed:" error;
            Alert "Rendering failed. See console for details."]
         /\ photoImageData st' = photoImageData st
         /\ mode st' = mode st
         /\ textInput st' = textInput st
         /\ (mode st = ImageMode -> onPrintClick B st' = onPrintClick B st)).
Proof.
  unfold handleFile. split.
  - intros ->. reflexivity.
  - intros c c' error -> ->. simpl.
    repeat split.
    intros Hmode. unfold onPrintClick. simpl. rewrite Hmode. reflexivity.
Qed.

Lemma handleFile_failure_witness :
  (handleFile sample_renderImage (text_mode_state (js "Hello") 0)
     text_file).2
  = [ConsoleError "Rendering failed:" IndexSizeError;
     Alert "Rendering failed. See console for details."].
Proof.
  exact (proj1 (proj2 (handleFile_failure sample_renderImage blank_browser
                         (text_mode_state (js "Hello") 0) text_file)
                  blank_canvas blank_canvas IndexSizeError
                  eq_refl eq_refl)).
Defined.

(** X21: an image that was rendered from a file, in whatever mode, is
    what the canvas shows once the component is in image mode, and it is
    what a click then sends to the printer, unchanged. *)
Theorem handled_image_is_printed (renderImage : RenderImage) (B : Browser)
    (st : AppState) (file : File) (c c' : Canvas) (img : ImageData) :
  previewCanvas st = Some c ->
  renderImage file c = (c', Ok img) ->
  let st' := show_photo (setMode ImageMode (handleFile renderImage st file).1)
  in
  (handleFile renderImage st file).2 = []
  /\ previewCanvas st'
     = Some {| canvas_width := image_width img;
               canvas_height := image_height img;
               canvas_bitmap := image_data img |}
  /\ onPrintClick B st' = try_printImage B img
  /\ printed_image B st' = Some img.
Proof.
  intros Hc Hrender. unfold handleFile. rewrite Hc, Hrender. simpl.
  repeat split.
  unfold printed_image, onPrintClick. simpl. unfold try_printImage.
  destruct (printImage B img); reflexivity.
Qed.

Lemma handled_image_is_printed_witness :
  printed_image blank_browser
    (show_photo
       (setMode ImageMode
          (handleFile sample_renderImage (text_mode_state (js "Hello") 0)
             png_file).1))
  = Some pixel_image.
Proof.
  exact (proj2 (proj2 (proj2 (handled_image_is_printed sample_renderImage
                                blank_browser
                                (text_mode_state (js "Hello") 0) png_file
                                blank_canvas blank_canvas pixel_image
                                eq_refl eq_refl)))).
Defined.
